(** * The flow state stash of hanko's flowpilot

    A shallow embedding of [backend/flowpilot/stash.go]: the history log
    and the scheduled-state queue that a flow keeps, between two stateless
    requests, inside one JSON document.

    The stash owns a [jsonmanager.JSONManager].  That package keeps a JSON
    text and reads and writes it by dotted paths.  Here the document is a
    JSON tree, objects are finite maps from keys to values, and the path
    operations work on the tree. *)

From Stdlib Require Import ZArith Ascii String List Lia.
From stdpp Require Import gmap strings list fin_maps.

Local Open Scope string_scope.
Local Open Scope Z_scope.

#[local] Set Warnings "-register-all".

(** ** JSON documents *)

(** A JSON value.  Numbers are integer literals (the stash only ever
    stores [int64] counts, and the integers that they become as
    [float64]); a string is its bytes; an object is a finite map, so a
    key occurs at most once. *)
Inductive Value : Type :=
  | VNull
  | VBool (b : bool)
  | VNum (n : Z)
  | VStr (s : string)
  | VArr (l : list Value)
  | VObj (m : gmap string Value).

(** ** The pieces of Go's runtime and standard library the code uses *)

Module gostd.

(** An [int64] is a [Z] in [[-2^63, 2^63)]; arithmetic wraps around. *)
Definition int64_min : Z := -9223372036854775808.
Definition int64_max : Z := 9223372036854775807.
Definition is_int64 (z : Z) : Prop := int64_min <= z <= int64_max.
Definition wrap64 (z : Z) : Z :=
  (z + 9223372036854775808) mod 18446744073709551616 - 9223372036854775808.
#[global] Arguments wrap64 : simpl never.

Definition quote : ascii := ascii_of_nat 34.
Definition backslash : ascii := ascii_of_nat 92.

Definition is_digit (c : ascii) : bool :=
  (48 <=? nat_of_ascii c)%nat && (nat_of_ascii c <=? 57)%nat.
Definition digit_val (c : ascii) : N := N.of_nat (nat_of_ascii c - 48).
Definition digit_of (n : N) : ascii := ascii_of_nat (48 + N.to_nat n).

(** Decimal digits of a natural number, most significant first. *)
Fixpoint utoa_aux (fuel : nat) (n : N) (acc : string) : string :=
  match fuel with
  | O => acc
  | S fuel' =>
      if (n <? 10)%N then String (digit_of n) acc
      else utoa_aux fuel' (n / 10)%N (String (digit_of (n mod 10)%N) acc)
  end.
Definition utoa (n : N) : string := utoa_aux (S (N.to_nat (N.log2 n))) n "".

(** [fmt.Sprintf("%d", z)] and [strconv.FormatInt(z, 10)]. *)
Definition itoa (z : Z) : string :=
  if z <? 0 then String "-" (utoa (Z.to_N (- z))) else utoa (Z.to_N z).

(** A Go slice is [nil] or holds a list; [json.Marshal] tells the two
    apart when the list is empty. *)
Inductive slice (A : Type) : Type :=
  | nil_slice
  | mk_slice (l : list A).
Arguments nil_slice {A}.
Arguments mk_slice {A} l.

Definition elems {A} (s : slice A) : list A :=
  match s with nil_slice => [] | mk_slice l => l end.

(** [append(s, xs...)]: with nothing to add the slice is returned as it
    is, so a [nil] slice stays [nil]. *)
Definition append {A} (s : slice A) (xs : list A) : slice A :=
  match xs with
  | [] => s
  | _ => mk_slice (elems s ++ xs)
  end.

(** [s[1:]] of a non-nil slice is never [nil]. *)
Definition tail_from_1 {A} (l : list A) : slice A := mk_slice (List.tl l).

(** The parameter of a variadic function is a slice.  A call that lists
    its arguments, [f(a, b)], passes a fresh slice of them, and [nil]
    when it lists none; a call [f(s...)] passes the slice [s] itself,
    which may be empty without being [nil]. *)
Definition variadic {A} (args : list A) : slice A :=
  match args with [] => nil_slice | _ => mk_slice args end.

(** The [float64] nearest to an integer, ties going to the even
    significand of 53 bits: the value of a number that has been held in
    a [float64].  (The exponent is taken as unbounded; an [int64] is far
    below the greatest [float64].) *)
Definition float64Value (n : Z) : Z :=
  let a := Z.abs n in
  if a <? 9007199254740992 then n
  else
    let k := Z.log2 a - 52 in
    let q := a / 2 ^ k in
    let r := a mod 2 ^ k in
    let half := 2 ^ (k - 1) in
    let q' := if (half <? r) || ((r =? half) && Z.odd q) then q + 1 else q in
    Z.sgn n * (q' * 2 ^ k).
#[global] Arguments float64Value : simpl never.

(** The decimal that [strconv] writes for a [float64] in its shortest
    form: the number with the fewest digits that still reads back as the
    same [float64], and of those the nearest.  [x] is the value, [l2] and
    [u2] are twice the midpoints to the neighbouring [float64]s, which
    read back as [x] when the significand is even ([inclusive]); the
    digits below [10^p] are dropped at the greatest [p] for which the
    result stays between the midpoints. *)
Fixpoint shortest (p : nat) (x l2 u2 : Z) (inclusive : bool) : Z :=
  let pow := 10 ^ Z.of_nat p in
  let down := x / pow * pow in
  let up := down + pow in
  let okdown := (l2 <? 2 * down) || inclusive && (l2 =? 2 * down) in
  let okup := (2 * up <? u2) || inclusive && (2 * up =? u2) in
  let nearest :=
    if (pow <? 2 * (x - down)) || (2 * (x - down) =? pow) && Z.odd (x / pow)
    then up else down in
  if okdown && okup then nearest
  else if okdown then down
  else if okup then up
  else match p with O => x | S p' => shortest p' x l2 u2 inclusive end.

(** The integer that [json.Marshal] writes for a [float64] whose value
    is the integer [x].  Below 2^53 it is [x] itself.  (From 10^21 on the
    text has an exponent; its value is the same.) *)
Definition formatFloat (x : Z) : Z :=
  let a := Z.abs x in
  if a <? 9007199254740992 then x
  else
    let e := Z.log2 a - 52 in
    let m := a / 2 ^ e in
    let u2 := 2 * a + 2 ^ e in
    let l2 := if m =? 4503599627370496 then 2 * a - 2 ^ (e - 1) else 2 * a - 2 ^ e in
    Z.sgn x * shortest (Z.to_nat e) a l2 u2 (Z.even m).
#[global] Arguments formatFloat : simpl never.

(** UTF-8, as package [unicode/utf8] decodes it: the byte sequences of
    two, three and four bytes that encode a code point (no overlong
    form, no surrogate, nothing above U+10FFFF). *)
Definition byte_in (lo hi : nat) (b : ascii) : bool :=
  (lo <=? nat_of_ascii b)%nat && (nat_of_ascii b <=? hi)%nat.

Definition continuation (b : ascii) : bool := byte_in 128 191 b.

Definition seq2 (b0 b1 : ascii) : bool := byte_in 194 223 b0 && continuation b1.

Definition seq3 (b0 b1 b2 : ascii) : bool :=
  (byte_in 224 224 b0 && byte_in 160 191 b1
   || (byte_in 225 236 b0 || byte_in 238 239 b0) && continuation b1
   || byte_in 237 237 b0 && byte_in 128 159 b1)
  && continuation b2.

Definition seq4 (b0 b1 b2 b3 : ascii) : bool :=
  (byte_in 240 240 b0 && byte_in 144 191 b1
   || byte_in 241 243 b0 && continuation b1
   || byte_in 244 244 b0 && byte_in 128 143 b1)
  && continuation b2 && continuation b3.

(** The encoding of U+FFFD, the replacement character. *)
Definition replacement (rest : string) : string :=
  String (ascii_of_nat 239) (String (ascii_of_nat 191) (String (ascii_of_nat 189) rest)).

(** [utf8.ValidString]. *)
Fixpoint validUTF8 (s : string) : bool :=
  match s with
  | EmptyString => true
  | String b0 r0 =>
      if (nat_of_ascii b0 <? 128)%nat then validUTF8 r0
      else
        match r0 with
        | String b1 r1 =>
            if seq2 b0 b1 then validUTF8 r1
            else
              match r1 with
              | String b2 r2 =>
                  if seq3 b0 b1 b2 then validUTF8 r2
                  else
                    match r2 with
                    | String b3 r3 => if seq4 b0 b1 b2 b3 then validUTF8 r3 else false
                    | EmptyString => false
                    end
              | EmptyString => false
              end
        | EmptyString => false
        end
  end.

(** The string that [json.Marshal] writes for a Go string, read back:
    every byte that does not start a UTF-8 sequence is replaced, one by
    one, by U+FFFD. *)
Fixpoint coerceUTF8 (s : string) : string :=
  match s with
  | EmptyString => EmptyString
  | String b0 r0 =>
      if (nat_of_ascii b0 <? 128)%nat then String b0 (coerceUTF8 r0)
      else
        match r0 with
        | String b1 r1 =>
            if seq2 b0 b1 then String b0 (String b1 (coerceUTF8 r1))
            else
              match r1 with
              | String b2 r2 =>
                  if seq3 b0 b1 b2 then String b0 (String b1 (String b2 (coerceUTF8 r2)))
                  else
                    match r2 with
                    | String b3 r3 =>
                        if seq4 b0 b1 b2 b3
                        then String b0 (String b1 (String b2 (String b3 (coerceUTF8 r3))))
                        else replacement (coerceUTF8 r0)
                    | EmptyString => replacement (coerceUTF8 r0)
                    end
              | EmptyString => replacement (coerceUTF8 r0)
              end
        | EmptyString => replacement (coerceUTF8 r0)
        end
  end.

End gostd.

(** ** The document store

    The stash reaches its document only through the package
    [jsonmanager], whose source is not in [stash.go]; the package hands
    every call to a JSON path library (reads by [gjson], writes by
    [sjson]).  The modules below model that store: a mapping-like document
    addressed by hierarchical paths, with typed get, set and delete, array
    indexing (also by the append index [-1]) and serialization to and
    from one string. *)

(** The text of a document. *)
Module jsontext.
Import gostd.

Definition hex_of (n : nat) : ascii :=
  if (n <? 10)%nat then ascii_of_nat (48 + n) else ascii_of_nat (87 + n).

(** One character of a string literal: the quote and the backslash are
    escaped, control characters are written as [\u00XX]. *)
Definition escape_char (c : ascii) : list ascii :=
  if Ascii.eqb c quote then [backslash; quote]
  else if Ascii.eqb c backslash then [backslash; backslash]
  else if (nat_of_ascii c <? 32)%nat then
    [backslash; "u"%char; "0"%char; "0"%char;
     hex_of (nat_of_ascii c / 16); hex_of (nat_of_ascii c mod 16)]
  else [c].

Definition chars (s : string) : list ascii := list_ascii_of_string s.

Definition quoted (s : string) : list ascii :=
  quote :: flat_map escape_char (chars s) ++ [quote].

Fixpoint join_comma (items : list (list ascii)) : list ascii :=
  match items with
  | [] => []
  | [x] => x
  | x :: rest => x ++ ","%char :: join_comma rest
  end.

Definition member (k : string) (x : list ascii) : list ascii :=
  quoted k ++ ":"%char :: x.

(** Modelled from the spec: serialization of the document store (absent
    package [jsonmanager]) to one string; the compact text of a value, as
    [json.Marshal] writes it. *)
Fixpoint print_chars (v : Value) : list ascii :=
  match v with
  | VNull => chars "null"
  | VBool true => chars "true"
  | VBool false => chars "false"
  | VNum n => chars (itoa n)
  | VStr s => quoted s
  | VArr l => "["%char :: join_comma (List.map print_chars l) ++ ["]"%char]
  | VObj m =>
      "{"%char ::
      join_comma (map_fold (fun k x acc => member k (print_chars x) :: acc) [] m)
      ++ ["}"%char]
  end.

Definition print (v : Value) : string := string_of_list_ascii (print_chars v).

(** Reading a text back.  White space may stand between tokens. *)
Definition is_ws (c : ascii) : bool :=
  let n := nat_of_ascii c in
  (n =? 32)%nat || (n =? 9)%nat || (n =? 10)%nat || (n =? 13)%nat.

Fixpoint skip_ws (s : list ascii) : list ascii :=
  match s with
  | c :: r => if is_ws c then skip_ws r else s
  | [] => []
  end.

Definition hex_val (c : ascii) : option nat :=
  let n := nat_of_ascii c in
  if (48 <=? n)%nat && (n <=? 57)%nat then Some (n - 48)%nat
  else if (97 <=? n)%nat && (n <=? 102)%nat then Some (n - 87)%nat
  else if (65 <=? n)%nat && (n <=? 70)%nat then Some (n - 55)%nat
  else None.

(** The bytes (UTF-8) of the code point of a [\uXXXX] escape. *)
Definition utf8 (n : nat) : list ascii :=
  if (n <? 128)%nat then [ascii_of_nat n]
  else if (n <? 2048)%nat then
    [ascii_of_nat (192 + n / 64); ascii_of_nat (128 + n mod 64)]
  else
    [ascii_of_nat (224 + n / 4096); ascii_of_nat (128 + (n / 64) mod 64);
     ascii_of_nat (128 + n mod 64)].

Definition unescape (e : ascii) : option ascii :=
  let n := nat_of_ascii e in
  if (n =? 34)%nat || (n =? 92)%nat || (n =? 47)%nat then Some e
  else if (n =? 98)%nat then Some (ascii_of_nat 8)
  else if (n =? 102)%nat then Some (ascii_of_nat 12)
  else if (n =? 110)%nat then Some (ascii_of_nat 10)
  else if (n =? 114)%nat then Some (ascii_of_nat 13)
  else if (n =? 116)%nat then Some (ascii_of_nat 9)
  else None.

(** The rest of a string literal, after its opening quote: the bytes of
    the string and what follows the closing quote. *)
Fixpoint parse_str (s : list ascii) : option (list ascii * list ascii) :=
  match s with
  | [] => None
  | c :: r =>
      if Ascii.eqb c quote then Some ([], r)
      else if Ascii.eqb c backslash then
        match r with
        | [] => None
        | e :: r1 =>
            if Ascii.eqb e "u"%char then
              match r1 with
              | h1 :: h2 :: h3 :: h4 :: r2 =>
                  match hex_val h1, hex_val h2, hex_val h3, hex_val h4 with
                  | Some a, Some b, Some c', Some d =>
                      match parse_str r2 with
                      | Some (str, rest) =>
                          Some ((utf8 (4096 * a + 256 * b + 16 * c' + d)%nat ++ str)%list, rest)
                      | None => None
                      end
                  | _, _, _, _ => None
                  end
              | _ => None
              end
            else
              match unescape e, parse_str r1 with
              | Some x, Some (str, rest) => Some (x :: str, rest)
              | _, _ => None
              end
        end
      else if (nat_of_ascii c <? 32)%nat then None
      else
        match parse_str r with
        | Some (str, rest) => Some (c :: str, rest)
        | None => None
        end
  end.

Fixpoint read_digits (s : list ascii) (n : N) : N * list ascii :=
  match s with
  | c :: r => if is_digit c then read_digits r (n * 10 + digit_val c)%N else (n, s)
  | [] => (n, [])
  end.

(** What may not follow the digits of an integer: a further digit, a
    fraction or an exponent (numbers with those are outside the model). *)
Definition number_goes_on (s : list ascii) : bool :=
  match s with
  | c :: _ =>
      let n := nat_of_ascii c in
      is_digit c || (n =? 46)%nat || (n =? 101)%nat || (n =? 69)%nat
  | [] => false
  end.

(** An integer literal: an optional minus, then 0 or digits that do not
    start with 0. *)
Definition parse_unsigned (s : list ascii) : option (N * list ascii) :=
  match s with
  | c :: r =>
      if is_digit c then
        if (nat_of_ascii c =? 48)%nat then
          if number_goes_on r then None else Some (0%N, r)
        else
          let '(n, rest) := read_digits s 0 in
          if number_goes_on rest then None else Some (n, rest)
      else None
  | [] => None
  end.

Definition parse_number (s : list ascii) : option (Z * list ascii) :=
  match s with
  | c :: r =>
      if Ascii.eqb c "-"%char then
        (fun '(n, rest) => (- Z.of_N n, rest)) <$> parse_unsigned r
      else (fun '(n, rest) => (Z.of_N n, rest)) <$> parse_unsigned s
  | [] => None
  end.

Fixpoint expect (word : list ascii) (s : list ascii) : option (list ascii) :=
  match word, s with
  | [], _ => Some s
  | w :: word', c :: r => if Ascii.eqb w c then expect word' r else None
  | _ :: _, [] => None
  end.

Fixpoint parse_value (fuel : nat) (s : list ascii) : option (Value * list ascii) :=
  match fuel with
  | O => None
  | S fuel' =>
      match s with
      | [] => None
      | c :: r =>
          if Ascii.eqb c "n"%char then (fun rest => (VNull, rest)) <$> expect (chars "ull") r
          else if Ascii.eqb c "t"%char then
            (fun rest => (VBool true, rest)) <$> expect (chars "rue") r
          else if Ascii.eqb c "f"%char then
            (fun rest => (VBool false, rest)) <$> expect (chars "alse") r
          else if Ascii.eqb c quote then
            (fun '(str, rest) => (VStr (string_of_list_ascii str), rest)) <$> parse_str r
          else if Ascii.eqb c "["%char then
            match skip_ws r with
            | c' :: r' =>
                if Ascii.eqb c' "]"%char then Some (VArr [], r')
                else (fun '(l, rest) => (VArr l, rest)) <$> parse_elems fuel' (c' :: r')
            | [] => None
            end
          else if Ascii.eqb c "{"%char then
            match skip_ws r with
            | c' :: r' =>
                if Ascii.eqb c' "}"%char then Some (VObj ∅, r')
                else
                  match parse_members fuel' (c' :: r') with
                  | Some (kvs, rest) =>
                      if bool_decide (NoDup kvs.*1)
                      then Some (VObj (list_to_map kvs), rest) else None
                  | None => None
                  end
            | [] => None
            end
          else (fun '(n, rest) => (VNum n, rest)) <$> parse_number s
      end
  end

with parse_elems (fuel : nat) (s : list ascii) : option (list Value * list ascii) :=
  match fuel with
  | O => None
  | S fuel' =>
      match parse_value fuel' s with
      | Some (v, r) =>
          match skip_ws r with
          | c :: r' =>
              if Ascii.eqb c ","%char then
                (fun '(l, rest) => (v :: l, rest)) <$> parse_elems fuel' (skip_ws r')
              else if Ascii.eqb c "]"%char then Some ([v], r')
              else None
          | [] => None
          end
      | None => None
      end
  end

with parse_members (fuel : nat) (s : list ascii)
    : option (list (string * Value) * list ascii) :=
  match fuel with
  | O => None
  | S fuel' =>
      match s with
      | q :: r0 =>
          if Ascii.eqb q quote then
            match parse_str r0 with
            | Some (k, r1) =>
                match skip_ws r1 with
                | c1 :: r2 =>
                    if Ascii.eqb c1 ":"%char then
                      match parse_value fuel' (skip_ws r2) with
                      | Some (v, r3) =>
                          match skip_ws r3 with
                          | c :: r4 =>
                              if Ascii.eqb c ","%char then
                                (fun '(kvs, rest) =>
                                   ((string_of_list_ascii k, v) :: kvs, rest))
                                  <$> parse_members fuel' (skip_ws r4)
                              else if Ascii.eqb c "}"%char then
                                Some ([(string_of_list_ascii k, v)], r4)
                              else None
                          | [] => None
                          end
                      | None => None
                      end
                    else None
                | [] => None
                end
            | None => None
            end
          else None
      | [] => None
      end
  end.

(** Modelled from the spec: deserialization of the document store
    (absent package [jsonmanager]) from a string; a whole text is one
    value, with nothing but white space around it, and anything else is
    no document.  A text in which an object has a key twice has no tree:
    it is refused as well. *)
Definition parse (text : string) : option Value :=
  let s := skip_ws (chars text) in
  match parse_value (S (length s)) s with
  | Some (v, rest) =>
      match skip_ws rest with [] => Some v | _ => None end
  | None => None
  end.

End jsontext.

(** Reading a document by path. *)
Module gjson.
Import gostd.

(** The result of a lookup: a value of the document, or nothing. *)
Definition Result : Type := option Value.

(** A dotted path, cut at its dots.  The stash uses plain components
    only: keys, array indices, [#] and [-1]. *)
Fixpoint split (path : string) : list string :=
  match path with
  | EmptyString => [EmptyString]
  | String c rest =>
      if Ascii.eqb c "."%char then EmptyString :: split rest
      else match split rest with
           | h :: t => String c h :: t
           | [] => [String c EmptyString]
           end
  end.

(** The loop shared by the decimal readers: [n = n*10 + digit] on
    [int64], failing at the first character that is no digit. *)
Fixpoint digits_acc (s : string) (n : Z) : option Z :=
  match s with
  | EmptyString => Some n
  | String c rest =>
      if is_digit c then digits_acc rest (wrap64 (n * 10 + Z.of_N (digit_val c)))
      else None
  end.

(** An array index: a non-empty run of digits. *)
Definition parseUint (s : string) : option Z :=
  match s with
  | EmptyString => None
  | _ => digits_acc s 0
  end.

(** A signed decimal. *)
Definition parseInt (s : string) : option Z :=
  match s with
  | EmptyString => None
  | String c rest =>
      if Ascii.eqb c "-"%char then
        match rest with
        | EmptyString => None
        | _ => (fun n => wrap64 (n * -1)) <$> digits_acc rest 0
        end
      else digits_acc s 0
  end.

Definition Exists (r : Result) : bool :=
  match r with Some _ => true | None => false end.

Definition IsObject (r : Result) : bool :=
  match r with Some (VObj _) => true | _ => false end.

Definition IsArray (r : Result) : bool :=
  match r with Some (VArr _) => true | _ => false end.

(** [Result.String]: a string gives its content, a number or a boolean
    its literal, a composite value its text, anything else nothing. *)
Definition String (r : Result) : string :=
  match r with
  | Some (VStr s) => s
  | Some (VNum n) => itoa n
  | Some (VBool true) => "true"
  | Some (VBool false) => "false"
  | Some (VArr l) => jsontext.print (VArr l)
  | Some (VObj m) => jsontext.print (VObj m)
  | Some VNull | None => ""
  end.

(** [Result.Int]: the [int64] a value stands for, 0 when it stands for
    none. *)
Definition Int (r : Result) : Z :=
  match r with
  | Some (VNum n) => wrap64 n
  | Some (VBool true) => 1
  | Some (VStr s) => default 0 (parseInt s)
  | _ => 0
  end.

(** [Result.Array]: the elements of an array, nothing for null or a
    missing value, and any other value as the only element. *)
Definition Array (r : Result) : list Value :=
  match r with
  | None | Some VNull => []
  | Some (VArr l) => l
  | Some v => [v]
  end.

(** The child of a value under one plain component: the member of an
    object with that key, the element of an array at that index. *)
Definition child (k : string) (v : Value) : Result :=
  match v with
  | VObj m => m !! k
  | VArr l =>
      match parseUint k with
      | Some i => if 0 <=? i then l !! Z.to_nat i else None
      | None => None
      end
  | _ => None
  end.

Fixpoint get (p : list string) (v : Value) : Result :=
  match p with
  | [] => Some v
  | k :: rest =>
      match v with
      | VArr l =>
          if String.eqb k "#" then
            match rest with
            | [] => Some (VNum (Z.of_nat (length l)))
            | _ => Some (VArr (omap (get rest) l))
            end
          else child k v ≫= get rest
      | _ => child k v ≫= get rest
      end
  end.

(** Modelled from the spec: get by hierarchical path of the document
    store (absent package [jsonmanager], which calls
    [gjson.Get(json, path)]). *)
Definition Get (json : Value) (path : string) : Result := get (split path) json.

(** [Result.Get(path)]: a lookup inside a result. *)
Definition ResultGet (r : Result) (path : string) : Result :=
  r ≫= fun v => Get v path.

End gjson.

(** Writing a document by path. *)
Module sjson.
Import gostd.

(** A component that reads as an array index when a value is created;
    unlike [gjson.parseUint] the empty component counts as 0. *)
Definition atoui (k : string) : option Z := gjson.digits_acc k 0.

(** The value created under a new key for the rest of the path: an array
    when the next component is an index or [-1], an object otherwise. *)
Fixpoint build (rest : list string) (raw : Value) : Value :=
  match rest with
  | [] => raw
  | k :: rest' =>
      match atoui k with
      | Some n => VArr (replicate (Z.to_nat n) VNull ++ [build rest' raw])
      | None =>
          if String.eqb k "-1" then VArr [build rest' raw]
          else VObj {[ k := build rest' raw ]}
      end
  end.

(** Replace the child that [gjson.child k] finds. *)
Definition put (k : string) (x : Value) (v : Value) : Value :=
  match v with
  | VObj m => VObj (<[ k := x ]> m)
  | VArr l => VArr (<[ Z.to_nat (default 0 (gjson.parseUint k)) := x ]> l)
  | _ => v
  end.

(** Remove the child that [gjson.child k] finds. *)
Definition remove (k : string) (v : Value) : Value :=
  match v with
  | VObj m => VObj (delete k m)
  | VArr l => VArr (delete (Z.to_nat (default 0 (gjson.parseUint k))) l)
  | _ => v
  end.

Definition is_container (v : Value) : bool :=
  match v with VObj _ | VArr _ => true | _ => false end.

(** Modelled from the spec: set by hierarchical path of the document
    store (absent package [jsonmanager], which calls [sjson.Set]).
    Follow the path while it exists and replace the value
    found at its end; where the path stops, create the rest.  A value
    that is neither object nor array is replaced by a new container; an
    array takes a new element under an index (padded with nulls) or
    under [-1] (appended), and refuses any other key. *)
Fixpoint set (p : list string) (raw : Value) (v : Value) : Value + string :=
  match p with
  | [] => inr "path cannot be empty"
  | k :: rest =>
      match gjson.child k v with
      | Some c =>
          match rest with
          | [] => inl (put k raw v)
          | _ =>
              match set rest raw c with
              | inl c' => inl (put k c' v)
              | inr e => inr e
              end
          end
      | None =>
          let v' :=
            if is_container v then v
            else match atoui k with Some _ => VArr [] | None => VObj ∅ end in
          match v' with
          | VArr l =>
              match atoui k with
              | Some n =>
                  inl (VArr (l ++ replicate (Z.to_nat n - length l) VNull
                               ++ [build rest raw]))
              | None =>
                  if String.eqb k "-1" then inl (VArr (l ++ [build rest raw]))
                  else inr ("cannot set array element for non-numeric key '"
                            +:+ k +:+ "'")
              end
          | VObj m => inl (VObj (<[ k := build rest raw ]> m))
          | _ => inl v'
          end
      end
  end.

Definition Set_ (json : Value) (path : string) (value : Value) : Value + string :=
  match path with
  | EmptyString => inr "path cannot be empty"
  | _ => set (gjson.split path) value json
  end.

(** Modelled from the spec: delete by hierarchical path of the document
    store (absent package [jsonmanager], which calls [sjson.Delete]).
    Remove the value at the end of the path; under [-1]
    the last element of an array.  A path that leads nowhere leaves the
    document as it is and is no error. *)
Fixpoint delete (p : list string) (v : Value) : option Value :=
  match p with
  | [] => None
  | k :: rest =>
      let n := gjson.Int (gjson.get ["#"] v) in
      let k' := if String.eqb k "-1" && (0 <? n) then itoa (wrap64 (n - 1)) else k in
      match gjson.child k' v with
      | Some c =>
          match rest with
          | [] => Some (remove k' v)
          | _ =>
              match delete rest c with
              | Some c' => Some (put k' c' v)
              | None => None
              end
          end
      | None => None
      end
  end.

Definition Delete (json : Value) (path : string) : Value + string :=
  match path with
  | EmptyString => inr "path cannot be empty"
  | _ => inl (default json (delete (gjson.split path) json))
  end.

End sjson.

(** The manager of one document. *)
Module jsonmanager.

(** Modelled from the spec: the generic document store of package
    [jsonmanager], whose source is absent.  It holds one JSON document,
    here as its tree rather than as its text. *)
Record DefaultJSONManager : Type := mkManager { data : Value }.

(** Modelled from the spec: the empty store, the document [{}]. *)
Definition NewJSONManager : DefaultJSONManager := mkManager (VObj ∅).

(** Modelled from the spec: deserialization of a store from a string,
    which fails with a parse error on a text that is no document. *)
Definition NewJSONManagerFromString (text : string)
    : option DefaultJSONManager * option string :=
  match jsontext.parse text with
  | Some v => (Some (mkManager v), None)
  | None => (None, Some "invalid json")
  end.

(** Modelled from the spec: typed get by path. *)
Definition Get (path : string) (jm : DefaultJSONManager) : gjson.Result :=
  gjson.Get (data jm) path.

(** Modelled from the spec: set by path.  A write that fails leaves the
    document as it was. *)
Definition Set_ (path : string) (value : Value) (jm : DefaultJSONManager)
    : option string * DefaultJSONManager :=
  match sjson.Set_ (data jm) path value with
  | inl d => (None, mkManager d)
  | inr e => (Some ("failed to set data: " +:+ e), jm)
  end.

(** Modelled from the spec: delete by path, with the same rule. *)
Definition Delete (path : string) (jm : DefaultJSONManager)
    : option string * DefaultJSONManager :=
  match sjson.Delete (data jm) path with
  | inl d => (None, mkManager d)
  | inr e => (Some ("failed to delete data: " +:+ e), jm)
  end.

(** Modelled from the spec: serialization of the store to one string. *)
Definition String (jm : DefaultJSONManager) : string := jsontext.print (data jm).

(** A document as the Go value that decoding into [interface{}] gives:
    every number is a [float64]. *)
Fixpoint asGoValue (v : Value) : Value :=
  match v with
  | VNum n => VNum (gostd.float64Value n)
  | VArr l => VArr (List.map asGoValue l)
  | VObj m => VObj (asGoValue <$> m)
  | _ => v
  end.

(** Modelled from the spec: the document as a Go value. *)
Definition Unmarshal (jm : DefaultJSONManager) : Value := asGoValue (data jm).

(** The JSON that [Set_] stores for the Go values the stash hands to it,
    which is what [json.Marshal] writes for them: a string, and a key,
    with every byte that is not UTF-8 replaced by U+FFFD; an [int64] by
    its digits; a [nil] slice as [null], any other slice as an array; a
    decoded document member by member, its numbers, which are
    [float64], in their shortest form.  (Two keys of a decoded object
    that differ only in bytes that are not UTF-8 become one member
    here; the keys of a history item are ["s"], ["n"] and ["u"].) *)
Definition of_string (s : string) : Value := VStr (gostd.coerceUTF8 s).
Definition of_int64 (n : Z) : Value := VNum n.
Definition of_strings (s : gostd.slice string) : Value :=
  match s with
  | gostd.nil_slice => VNull
  | gostd.mk_slice l => VArr (of_string <$> l)
  end.
Fixpoint of_interface (v : Value) : Value :=
  match v with
  | VStr s => of_string s
  | VNum x => VNum (gostd.formatFloat x)
  | VArr l => VArr (List.map of_interface l)
  | VObj m => VObj (kmap gostd.coerceUTF8 (of_interface <$> m))
  | _ => v
  end.

End jsonmanager.

(** ** The stash: [backend/flowpilot/stash.go] *)

Import gostd.

Definition StateName : Type := string.

(** A Go [error]; [None] is [nil]. *)
Definition error : Type := option string.

Definition Errorf (context : string) (e : string) : error := Some (context +:+ e).

(** [defaultStash] embeds the manager of its document. *)
Record defaultStash : Type := mkStash { JSONManager : jsonmanager.DefaultJSONManager }.

Definition NewStash : defaultStash := mkStash jsonmanager.NewJSONManager.

(** On a parse error Go returns the error next to a stash around a nil
    manager; no stash is returned here. *)
Definition NewStashFromString (data : string) : option defaultStash * error :=
  let '(jm, err) := jsonmanager.NewJSONManagerFromString data in
  (mkStash <$> jm, err).

(** The methods of the embedded manager, promoted to the stash. *)
Module embedded.

Definition Get (path : string) (s : defaultStash) : gjson.Result :=
  jsonmanager.Get path (JSONManager s).

Definition Set_ (path : string) (value : Value) (s : defaultStash)
    : error * defaultStash :=
  let '(err, jm) := jsonmanager.Set_ path value (JSONManager s) in (err, mkStash jm).

Definition Delete (path : string) (s : defaultStash) : error * defaultStash :=
  let '(err, jm) := jsonmanager.Delete path (JSONManager s) in (err, mkStash jm).

Definition String (s : defaultStash) : string := jsonmanager.String (JSONManager s).

End embedded.

(** The four results of [getLastStateFromHistory]. *)
Record lastState : Type := mkLast {
  stateName : option StateName;
  unscheduledStateName : option StateName;
  numOfScheduledStates : option Z;
  err : error
}.

Definition getLastStateFromHistory (s : defaultStash) : lastState :=
  let lastItemPosition := wrap64 (gjson.Int (embedded.Get "_.state_history.#" s) - 1) in
  let lastHistoryItem := embedded.Get ("_.state_history." +:+ itoa lastItemPosition) s in
  if negb (gjson.Exists lastHistoryItem) then mkLast None None None None
  else if negb (gjson.IsObject lastHistoryItem) then
    mkLast None None None (Some "last history item is not an object")
  else if negb (gjson.Exists (gjson.ResultGet lastHistoryItem "s")) then
    mkLast None None None (Some "last history item is missing a value for 'state'")
  else
    let sn := gjson.String (gjson.ResultGet lastHistoryItem "s") in
    let usn :=
      if gjson.Exists (gjson.ResultGet lastHistoryItem "u")
      then Some (gjson.String (gjson.ResultGet lastHistoryItem "u")) else None in
    let n :=
      if gjson.Exists (gjson.ResultGet lastHistoryItem "n")
      then Some (gjson.Int (gjson.ResultGet lastHistoryItem "n")) else None in
    mkLast (Some sn) usn n None.

(** The three writes that fill the history item, a manager of its own. *)
Definition historyItemFor (stateName : StateName)
    (unscheduledStateName : option StateName) (numOfScheduledStates : option Z)
    : error + jsonmanager.DefaultJSONManager :=
  let historyItem := jsonmanager.NewJSONManager in
  match jsonmanager.Set_ "s" (jsonmanager.of_string stateName) historyItem with
  | (Some e, _) => inl (Errorf "failed to set state: " e)
  | (None, historyItem) =>
      let step_n :=
        match numOfScheduledStates with
        | Some n =>
            if 0 <? n then jsonmanager.Set_ "n" (jsonmanager.of_int64 n) historyItem
            else (None, historyItem)
        | None => (None, historyItem)
        end in
      match step_n with
      | (Some e, _) => inl (Errorf "failed to set num_of_scheduled_states: " e)
      | (None, historyItem) =>
          let step_u :=
            match unscheduledStateName with
            | Some u => jsonmanager.Set_ "u" (jsonmanager.of_string u) historyItem
            | None => (None, historyItem)
            end in
          match step_u with
          | (Some e, _) => inl (Errorf "failed to set unscheduled_state: " e)
          | (None, historyItem) => inr historyItem
          end
      end
  end.

Definition addStateToHistory (stateName : StateName)
    (unscheduledStateName : option StateName) (numOfScheduledStates : option Z)
    (s : defaultStash) : error * defaultStash :=
  let '(mkLast lastStateName _ _ err) := getLastStateFromHistory s in
  match err with
  | Some e => (Some e, s)
  | None =>
      let same :=
        match lastStateName with
        | Some lastStateName => String.eqb lastStateName stateName
        | None => false
        end in
      if same then (None, s)
      else
        match historyItemFor stateName unscheduledStateName numOfScheduledStates with
        | inl e => (e, s)
        | inr historyItem =>
            match embedded.Set_ "_.state_history.-1"
                    (jsonmanager.of_interface (jsonmanager.Unmarshal historyItem)) s with
            | (Some e, s') => (Errorf "failed to update stashed history: " e, s')
            | (None, s') => (None, s')
            end
        end
  end.

Definition removeLastStateFromHistory (s : defaultStash) : error * defaultStash :=
  match embedded.Delete "_.state_history.-1" s with
  | (Some e, s') => (Some e, s')
  | (None, s') => (None, s')
  end.

(** The loop shared by both queue methods: the scheduled states of the
    document, each read as a string. *)
Definition scheduledStack (s : defaultStash) : list StateName :=
  (fun v => gjson.String (Some v)) <$> gjson.Array (embedded.Get "_.scheduled_states" s).

Definition addScheduledStates (scheduledStateNames : slice StateName)
    (s : defaultStash) : error * defaultStash :=
  let newStack := scheduledStack s in
  let newStack := append scheduledStateNames newStack in
  match embedded.Set_ "_.scheduled_states" (jsonmanager.of_strings newStack) s with
  | (Some e, s') => (Errorf "failed to set scheduled_states: " e, s')
  | (None, s') => (None, s')
  end.

Definition removeLastScheduledState (s : defaultStash)
    : option StateName * error * defaultStash :=
  let newStack := scheduledStack s in
  match newStack with
  | [] => (None, None, s)
  | nextStateName :: _ =>
      let newStack := tail_from_1 newStack in
      match embedded.Set_ "_.scheduled_states" (jsonmanager.of_strings newStack) s with
      | (Some e, s') =>
          (None,
           Errorf "failed to stash scheduled states while ending the sub-flow: " e, s')
      | (None, s') => (Some nextStateName, None, s')
      end
  end.

(** ** Views of a stash, used to state its properties *)

(** The document a stash holds. *)
Definition doc (s : defaultStash) : Value := jsonmanager.data (JSONManager s).

Definition stashOf (v : Value) : defaultStash := mkStash (jsonmanager.mkManager v).

(** The members of the root object, and those of the reserved namespace
    ["_"] in it; none when there is no such object. *)
Definition rootOf (v : Value) : gmap string Value :=
  match v with VObj m => m | _ => ∅ end.

Definition namespaceOf (v : Value) : gmap string Value :=
  match v with
  | VObj m => match m !! "_" with Some (VObj ns) => ns | _ => ∅ end
  | _ => ∅
  end.

(** The reserved namespace cannot be written when the document, or the
    value under ["_"], is an array: an array takes no key. *)
Definition blocked (v : Value) : bool :=
  match v with
  | VArr _ => true
  | VObj m => match m !! "_" with Some (VArr _) => true | _ => false end
  | _ => false
  end.

(** The history as it is persisted: the array under [_.state_history],
    empty as long as nothing is stored there; any other value there is no
    history. *)
Definition historyOf (s : defaultStash) : option (list Value) :=
  match embedded.Get "_.state_history" s with
  | None => Some []
  | Some (VArr l) => Some l
  | Some _ => None
  end.

(** The state an entry records, as the stash reads it. *)
Definition entryState (e : Value) : StateName :=
  gjson.String (gjson.Get e "s").

Definition historyStates (s : defaultStash) : list StateName :=
  entryState <$> default [] (historyOf s).

(** A well-formed entry is an object with a member ["s"]. *)
Definition wellFormedEntry (e : Value) : bool :=
  gjson.IsObject (Some e) && gjson.Exists (gjson.Get e "s").

Definition adjacentDistinct (l : list StateName) : Prop :=
  ∀ (i : nat) (a b : StateName), l !! i = Some a → l !! S i = Some b → a ≠ b.

(** Positions of the history are [int64]: the history has room for one
    more entry. *)
Definition hasRoom (s : defaultStash) : Prop :=
  Z.of_nat (length (default [] (historyOf s))) < int64_max.

(** What [getLastStateFromHistory] makes of the entry it has looked up. *)
Definition decodeEntry (lastHistoryItem : gjson.Result) : lastState :=
  match lastHistoryItem with
  | None => mkLast None None None None
  | Some e =>
      if negb (gjson.IsObject (Some e)) then
        mkLast None None None (Some "last history item is not an object")
      else if negb (gjson.Exists (gjson.Get e "s")) then
        mkLast None None None (Some "last history item is missing a value for 'state'")
      else
        mkLast (Some (entryState e))
          (if gjson.Exists (gjson.Get e "u")
           then Some (gjson.String (gjson.Get e "u")) else None)
          (if gjson.Exists (gjson.Get e "n")
           then Some (gjson.Int (gjson.Get e "n")) else None)
          None
  end.

(** The scheduled count that an entry keeps: only one above zero. *)
Definition keptCount (numOfScheduledStates : option Z) : option Z :=
  match numOfScheduledStates with
  | Some n => if 0 <? n then Some n else None
  | None => None
  end.

(** The mutations of a stash, and a run of them. *)
Inductive mutation : Type :=
  | AddState (stateName : StateName) (unscheduledStateName : option StateName)
      (numOfScheduledStates : option Z)
  | RemoveLastState
  | AddScheduled (scheduledStateNames : slice StateName)
  | RemoveLastScheduled.

Definition applyMutation (s : defaultStash) (m : mutation) : defaultStash :=
  match m with
  | AddState a u n => (addStateToHistory a u n s).2
  | RemoveLastState => (removeLastStateFromHistory s).2
  | AddScheduled names => (addScheduledStates names s).2
  | RemoveLastScheduled => (removeLastScheduledState s).2
  end.

Definition run (ms : list mutation) (s : defaultStash) : defaultStash :=
  foldl applyMutation s ms.

(** Draining the queue: [removeLastScheduledState] until it returns no
    state (or an error), at most [fuel] times. *)
Fixpoint drain (fuel : nat) (s : defaultStash) : list StateName :=
  match fuel with
  | O => []
  | S fuel' =>
      match removeLastScheduledState s with
      | (Some name, None, s') => name :: drain fuel' s'
      | _ => []
      end
  end.

Definition drainQueue (s : defaultStash) : list StateName :=
  drain (length (scheduledStack s)) s.

(** ** Auxiliary notions of the proofs *)

(** A path component: a string without a dot. *)
Fixpoint nodot (s : string) : bool :=
  match s with
  | EmptyString => true
  | String c r => negb (Ascii.eqb c ".") && nodot r
  end.

Definition head_digit (s : string) : bool :=
  match s with String c _ => is_digit c | EmptyString => false end.

(** The first digit of a positive number is not 0. *)
Definition head_nonzero (s : string) : Prop :=
  ∃ (d : N) (r : string), s = String (digit_of d) r ∧ (1 <= d < 10)%N.

(** What a write under [-1] makes of the value [h] found under
    [state_history]: an array grows by the entry, nothing becomes an
    array of the entry, anything else ends as an object with the key
    ["-1"]. *)
Definition appendEntry (h : option Value) (raw : Value) : Value :=
  match h with
  | None => VArr [raw]
  | Some (VArr l) => VArr (l ++ [raw])
  | Some (VObj m) => VObj (<[ "-1" := raw ]> m)
  | Some _ => VObj {[ "-1" := raw ]}
  end.

Definition historyLength (s : defaultStash) : nat :=
  length (default [] (historyOf s)).

(** The entry that [getLastStateFromHistory] looks up. *)
Definition lastItem (s : defaultStash) : gjson.Result :=
  embedded.Get
    ("_.state_history." +:+
       itoa (wrap64 (gjson.Int (embedded.Get "_.state_history.#" s) - 1))) s.

(** The history item that [addStateToHistory] builds, a document of its
    own, before it is decoded and written into the history. *)
Definition itemFor (stateName : StateName) (unscheduledStateName : option StateName)
    (numOfScheduledStates : option Z) : Value :=
  let m : gmap string Value := <[ "s" := VStr (coerceUTF8 stateName) ]> ∅ in
  let m := match keptCount numOfScheduledStates with
           | Some n => <[ "n" := VNum n ]> m
           | None => m
           end in
  let m := match unscheduledStateName with
           | Some u => <[ "u" := VStr (coerceUTF8 u) ]> m
           | None => m
           end in
  VObj m.

(** A count as an entry holds it: the count has been read as a
    [float64] when the item was decoded, and written as one. *)
Definition storedCount (n : Z) : Z := formatFloat (float64Value n).

(** The entry that [addStateToHistory] writes: the item with its count
    as a [float64]. *)
Definition entryFor (stateName : StateName) (unscheduledStateName : option StateName)
    (numOfScheduledStates : option Z) : Value :=
  let m : gmap string Value := <[ "s" := VStr (coerceUTF8 stateName) ]> ∅ in
  let m := match keptCount numOfScheduledStates with
           | Some n => <[ "n" := VNum (storedCount n) ]> m
           | None => m
           end in
  let m := match unscheduledStateName with
           | Some u => <[ "u" := VStr (coerceUTF8 u) ]> m
           | None => m
           end in
  VObj m.


(** What draining a queue returns: its head as it stands in the
    document, and the names behind it as they are written back. *)
Definition drained (queue : list StateName) : list StateName :=
  match queue with
  | [] => []
  | name :: rest => name :: (coerceUTF8 <$> rest)
  end.

(** A name that is not UTF-8: the one byte 0xFF. *)
Definition invalidName : StateName := String (ascii_of_nat 255) "".

Definition allValid (names : list StateName) : Prop :=
  Forall (fun name => validUTF8 name = true) names.

(** The names that a mutation hands to the stash are UTF-8. *)
Definition validMutation (m : mutation) : Prop :=
  match m with
  | AddState a u _ => validUTF8 a = true
  | _ => True
  end.

(** The document after a write of [h] under [key] of the namespace. *)
Definition withMember (key : string) (h : Value) (v : Value) : Value :=
  VObj (<[ "_" := VObj (<[ key := h ]> (namespaceOf v)) ]> (rootOf v)).

(** A value is read back from its text, whatever follows the text. *)
Definition round_trips (v : Value) : Prop :=
  ∀ (fuel : nat) (rest : list ascii),
    (length (jsontext.print_chars v) < fuel)%nat →
    jsontext.number_goes_on rest = false →
    jsontext.parse_value fuel (jsontext.print_chars v ++ rest)%list = Some (v, rest).

Definition print_member (kx : string * Value) : list ascii :=
  jsontext.member kx.1 (jsontext.print_chars kx.2).

(** The member of the namespace that a mutation is about. *)
Definition touches (m : mutation) : string :=
  match m with
  | AddState _ _ _ | RemoveLastState => "state_history"
  | AddScheduled _ | RemoveLastScheduled => "scheduled_states"
  end.

(** A stash as the operations build it: the namespace can be written and
    the history is an array of well-formed entries. *)
Definition wellFormedStash (s : defaultStash) : Prop :=
  blocked (doc s) = false ∧
  ∃ l, historyOf s = Some l ∧ Forall (fun e => wellFormedEntry e = true) l.

(** * Proofs *)

Local Open Scope list_scope.


Section Decimal.

Lemma wrap64_id (z : Z) : is_int64 z → wrap64 z = z.
Proof.
  unfold is_int64, int64_min, int64_max, wrap64. intros Hz.
  rewrite Z.mod_small by lia. lia.
Qed.

Lemma nat_of_digit_of (n : N) :
  (n < 10)%N → nat_of_ascii (digit_of n) = (48 + N.to_nat n)%nat.
Proof. intros Hn. unfold digit_of. apply nat_ascii_embedding. lia. Qed.

Lemma is_digit_digit_of (n : N) : (n < 10)%N → is_digit (digit_of n) = true.
Proof.
  intros Hn. unfold is_digit. rewrite nat_of_digit_of by done.
  apply andb_true_intro. split; apply Nat.leb_le; lia.
Qed.

Lemma digit_val_digit_of (n : N) : (n < 10)%N → digit_val (digit_of n) = n.
Proof. intros Hn. unfold digit_val. rewrite nat_of_digit_of by done. lia. Qed.

Lemma log2_div10 (n : N) :
  (10 <= n)%N → (N.to_nat (N.log2 (n / 10)) < N.to_nat (N.log2 n))%nat.
Proof.
  intros Hn.
  assert (Hq : (0 < n / 10)%N) by (apply N.div_str_pos; lia).
  assert (Hlt : (N.log2 (n / 10) < N.log2 n)%N); [|lia].
  apply N.log2_lt_pow2; [done|].
  destruct (N.log2_spec n) as [Hlo Hhi]; [lia|].
  rewrite N.pow_succ_r' in Hhi.
  assert (10 * (n / 10) <= n)%N by (apply N.Div0.mul_div_le).
  lia.
Qed.

Lemma digits_acc_cons (c : ascii) (r : string) (n : Z) :
  gjson.digits_acc (String c r) n =
  if is_digit c then gjson.digits_acc r (wrap64 (n * 10 + Z.of_N (digit_val c)))
  else None.
Proof. reflexivity. Qed.

Lemma utoa_aux_S (fuel : nat) (n : N) (acc : string) :
  utoa_aux (S fuel) n acc =
  if (n <? 10)%N then String (digit_of n) acc
  else utoa_aux fuel (n / 10)%N (String (digit_of (n mod 10)%N) acc).
Proof. reflexivity. Qed.

(** Reading back the digits that [utoa_aux] puts in front of [acc]. *)
Lemma digits_acc_utoa_aux (fuel : nat) : ∀ (n : N) (acc : string),
  (N.to_nat (N.log2 n) < fuel)%nat → Z.of_N n <= int64_max →
  gjson.digits_acc (utoa_aux fuel n acc) 0 = gjson.digits_acc acc (Z.of_N n).
Proof.
  induction fuel as [|fuel IH]; intros n acc Hfuel Hmax; [lia|].
  rewrite utoa_aux_S. destruct (N.ltb_spec n 10) as [Hlt|Hge].
  - rewrite digits_acc_cons, is_digit_digit_of, digit_val_digit_of by done.
    rewrite wrap64_id; [done|]. unfold is_int64, int64_min, int64_max in *. lia.
  - pose proof (log2_div10 n Hge) as Hlog.
    assert (Hdm : n = (10 * (n / 10) + n mod 10)%N) by (apply N.div_mod; lia).
    assert (Hm : (n mod 10 < 10)%N) by (apply N.mod_lt; lia).
    revert Hdm Hm Hlog IH. generalize (n / 10)%N (n mod 10)%N. intros q m Hdm Hm Hlog IH.
    unfold is_int64, int64_min, int64_max in *.
    rewrite IH; [|lia|lia].
    rewrite digits_acc_cons, is_digit_digit_of, digit_val_digit_of by done.
    rewrite wrap64_id; [f_equal; lia|].
    unfold is_int64, int64_min, int64_max in *. lia.
Qed.

Lemma utoa_nonempty_aux (fuel : nat) (n : N) (acc : string) :
  acc ≠ "" → utoa_aux fuel n acc ≠ "".
Proof.
  revert n acc. induction fuel as [|fuel IH]; intros n acc Hacc; [done|].
  rewrite utoa_aux_S. destruct (n <? 10)%N; [done|]. apply IH. done.
Qed.

Lemma utoa_nonempty (n : N) : utoa n ≠ "".
Proof.
  unfold utoa. rewrite utoa_aux_S. destruct (n <? 10)%N; [done|].
  apply utoa_nonempty_aux. done.
Qed.

Lemma parseUint_itoa (z : Z) :
  0 <= z <= int64_max → gjson.parseUint (itoa z) = Some z.
Proof.
  intros [Hlo Hhi]. unfold itoa.
  destruct (Z.ltb_spec z 0) as [|_]; [lia|].
  unfold gjson.parseUint.
  destruct (utoa (Z.to_N z)) eqn:Hu; [by apply utoa_nonempty in Hu|].
  rewrite <- Hu. unfold utoa.
  rewrite digits_acc_utoa_aux; [simpl; f_equal; lia|lia|lia].
Qed.

Lemma parseUint_itoa_neg (z : Z) : z < 0 → gjson.parseUint (itoa z) = None.
Proof.
  intros Hz. unfold itoa. destruct (Z.ltb_spec z 0) as [_|]; [|lia]. done.
Qed.

End Decimal.

Section Encoding.




Lemma validUTF8_replacement (t : string) :
  validUTF8 (replacement t) = validUTF8 t.
Proof. reflexivity. Qed.

(** What [coerceUTF8] returns is UTF-8, and UTF-8 is returned as it is. *)
Lemma coerceUTF8_spec (n : nat) : ∀ s : string,
  (String.length s <= n)%nat →
  validUTF8 (coerceUTF8 s) = true ∧ (validUTF8 s = true → coerceUTF8 s = s).
Proof.
  induction n as [|n IH]; intros s Hn.
  { destruct s; [done|cbn in Hn; lia]. }
  destruct s as [|b0 r0]; [done|]. cbn [String.length] in Hn.
  cbn [coerceUTF8 validUTF8].
  destruct (nat_of_ascii b0 <? 128)%nat eqn:Hb0.
  { destruct (IH r0) as [H1 H2]; [lia|]. cbn [validUTF8]. rewrite Hb0.
    split; [done|]. intros Hv. by rewrite H2. }
  assert (Hrep : validUTF8 (replacement (coerceUTF8 r0)) = true).
  { rewrite validUTF8_replacement. apply IH. lia. }
  destruct r0 as [|b1 r1]; [done|]. cbn [String.length] in Hn.
  destruct (seq2 b0 b1) eqn:Hs2.
  { destruct (IH r1) as [H1 H2]; [lia|]. cbn [validUTF8]. rewrite Hb0, Hs2.
    split; [done|]. intros Hv. by rewrite H2. }
  destruct r1 as [|b2 r2]; [done|]. cbn [String.length] in Hn.
  destruct (seq3 b0 b1 b2) eqn:Hs3.
  { destruct (IH r2) as [H1 H2]; [lia|]. cbn [validUTF8]. rewrite Hb0, Hs2, Hs3.
    split; [done|]. intros Hv. by rewrite H2. }
  destruct r2 as [|b3 r3]; [done|]. cbn [String.length] in Hn.
  destruct (seq4 b0 b1 b2 b3) eqn:Hs4; [|done].
  destruct (IH r3) as [H1 H2]; [lia|]. cbn [validUTF8]. rewrite Hb0, Hs2, Hs3, Hs4.
  split; [done|]. intros Hv. by rewrite H2.
Qed.

Lemma validUTF8_coerceUTF8 (s : string) : validUTF8 (coerceUTF8 s) = true.
Proof. by apply (coerceUTF8_spec (String.length s)). Qed.

Lemma coerceUTF8_valid (s : string) : validUTF8 s = true → coerceUTF8 s = s.
Proof. by apply (coerceUTF8_spec (String.length s)). Qed.

Lemma coerceUTF8_idemp (s : string) : coerceUTF8 (coerceUTF8 s) = coerceUTF8 s.
Proof. apply coerceUTF8_valid, validUTF8_coerceUTF8. Qed.

Lemma coerceUTF8_all_valid (l : list string) :
  Forall (fun x => validUTF8 x = true) l → coerceUTF8 <$> l = l.
Proof.
  induction 1 as [|x l Hx Hl IH]; [done|].
  cbn [fmap list_fmap]. rewrite coerceUTF8_valid by done. f_equal. exact IH.
Qed.

Lemma coerceUTF8_fmap_idemp (l : list string) :
  coerceUTF8 <$> (coerceUTF8 <$> l) = coerceUTF8 <$> l.
Proof.
  apply coerceUTF8_all_valid, Forall_fmap, Forall_forall. intros x _.
  apply validUTF8_coerceUTF8.
Qed.

End Encoding.

Section Paths.

Lemma split_cons (c : ascii) (r : string) :
  gjson.split (String c r) =
  if Ascii.eqb c "."%char then EmptyString :: gjson.split r
  else match gjson.split r with
       | h :: t => String c h :: t
       | [] => [String c EmptyString]
       end.
Proof. reflexivity. Qed.

Lemma split_nodot (s : string) : nodot s = true → gjson.split s = [s].
Proof.
  induction s as [|c r IH]; [done|].
  cbn [nodot]. intros [Hc Hr]%andb_prop.
  rewrite split_cons. apply negb_true_iff in Hc. rewrite Hc, IH; done.
Qed.

Lemma digit_of_nodot (n : N) : (n < 10)%N → Ascii.eqb (digit_of n) "." = false.
Proof.
  intros Hn. apply Ascii.eqb_neq. intros Heq.
  apply (f_equal nat_of_ascii) in Heq. rewrite nat_of_digit_of in Heq by done.
  vm_compute (nat_of_ascii ".") in Heq. lia.
Qed.

Lemma nodot_utoa_aux (fuel : nat) : ∀ (n : N) (acc : string),
  nodot acc = true → nodot (utoa_aux fuel n acc) = true.
Proof.
  induction fuel as [|fuel IH]; intros n acc Hacc; [done|].
  rewrite utoa_aux_S. destruct (N.ltb_spec n 10) as [Hlt|Hge].
  - cbn [nodot]. rewrite digit_of_nodot by done. done.
  - apply IH. cbn [nodot]. rewrite digit_of_nodot; [done|]. apply N.mod_lt. lia.
Qed.

Lemma nodot_itoa (z : Z) : nodot (itoa z) = true.
Proof.
  unfold itoa, utoa. destruct (z <? 0); [cbn [nodot]; apply andb_true_intro; split; [done|]|];
    by apply nodot_utoa_aux.
Qed.

Lemma split_nonempty (s : string) : gjson.split s ≠ [].
Proof.
  destruct s as [|c r]; [done|]. rewrite split_cons.
  destruct (Ascii.eqb c "."); [done|]. by destruct (gjson.split r).
Qed.

Lemma split_append (p k : string) :
  nodot k = true → gjson.split (p +:+ String "." k) = gjson.split p ++ [k].
Proof.
  intros Hk. induction p as [|c r IH].
  - change (gjson.split (String "." k) = [""; k]).
    rewrite split_cons. change (Ascii.eqb "." ".") with true. cbv iota.
    by rewrite split_nodot.
  - change (String c r +:+ String "." k) with (String c (r +:+ String "." k)).
    rewrite !split_cons, IH.
    destruct (Ascii.eqb c "."); [done|].
    pose proof (split_nonempty r). by destruct (gjson.split r).
Qed.

Lemma split_history_index (k : string) :
  nodot k = true →
  gjson.split ("_.state_history." +:+ k) = ["_"; "state_history"; k].
Proof.
  intros Hk.
  change ("_.state_history." +:+ k) with ("_.state_history" +:+ String "." k).
  by rewrite split_append.
Qed.

End Paths.

Section Reading.

Lemma get_cons_obj (k : string) (rest : list string) (m : gmap string Value) :
  gjson.get (k :: rest) (VObj m) = m !! k ≫= gjson.get rest.
Proof. reflexivity. Qed.

Lemma get_cons_arr (k : string) (rest : list string) (l : list Value) :
  gjson.get (k :: rest) (VArr l) =
  if String.eqb k "#" then
    match rest with
    | [] => Some (VNum (Z.of_nat (length l)))
    | _ => Some (VArr (omap (gjson.get rest) l))
    end
  else gjson.child k (VArr l) ≫= gjson.get rest.
Proof. reflexivity. Qed.

Lemma child_arr (k : string) (l : list Value) :
  gjson.child k (VArr l) =
  match gjson.parseUint k with
  | Some i => if 0 <=? i then l !! Z.to_nat i else None
  | None => None
  end.
Proof. reflexivity. Qed.

Lemma get_cons_plain_arr (k : string) (rest : list string) (l : list Value) :
  String.eqb k "#" = false → gjson.parseUint k = None →
  gjson.get (k :: rest) (VArr l) = None.
Proof. intros Hk Hp. by rewrite get_cons_arr, Hk, child_arr, Hp. Qed.

(** A path into the reserved namespace reads a member of it. *)
Lemma get_namespace (k : string) (rest : list string) (v : Value) :
  String.eqb k "#" = false → gjson.parseUint k = None →
  gjson.get ("_" :: k :: rest) v = namespaceOf v !! k ≫= gjson.get rest.
Proof.
  intros Hk Hp. destruct v as [| | | |l|m]; try done.
  rewrite get_cons_obj. unfold namespaceOf.
  destruct (m !! "_") as [[| | | |l|ns]|] eqn:Hm; try done.
  cbn [mbind option_bind]. by rewrite get_cons_plain_arr.
Qed.

Lemma Get_history (s : defaultStash) :
  embedded.Get "_.state_history" s = namespaceOf (doc s) !! "state_history".
Proof.
  change (embedded.Get "_.state_history" s)
    with (gjson.get ["_"; "state_history"] (doc s)).
  rewrite get_namespace by done. by destruct (_ !! _).
Qed.

Lemma Get_scheduled (s : defaultStash) :
  embedded.Get "_.scheduled_states" s = namespaceOf (doc s) !! "scheduled_states".
Proof.
  change (embedded.Get "_.scheduled_states" s)
    with (gjson.get ["_"; "scheduled_states"] (doc s)).
  rewrite get_namespace by done. by destruct (_ !! _).
Qed.

Lemma Get_count (s : defaultStash) :
  embedded.Get "_.state_history.#" s =
  namespaceOf (doc s) !! "state_history" ≫= gjson.get ["#"].
Proof.
  change (embedded.Get "_.state_history.#" s)
    with (gjson.get ["_"; "state_history"; "#"] (doc s)).
  by rewrite get_namespace.
Qed.

Lemma Get_index (s : defaultStash) (z : Z) :
  embedded.Get ("_.state_history." +:+ itoa z) s =
  namespaceOf (doc s) !! "state_history" ≫= gjson.get [itoa z].
Proof.
  unfold embedded.Get, jsonmanager.Get, gjson.Get.
  rewrite split_history_index by apply nodot_itoa.
  by rewrite get_namespace.
Qed.

Lemma historyOf_spec (s : defaultStash) (l : list Value) :
  historyOf s = Some l ↔
  namespaceOf (doc s) !! "state_history" = Some (VArr l) ∨
  (namespaceOf (doc s) !! "state_history" = None ∧ l = []).
Proof.
  unfold historyOf. rewrite Get_history.
  destruct (_ !! _) as [[]|]; split;
    first [ intros [?|[? ?]]; congruence
          | intros [= <-]; auto
          | intros ?; congruence ].
Qed.

Lemma head_digit_utoa_aux (fuel : nat) : ∀ (n : N) (acc : string),
  head_digit acc = true → head_digit (utoa_aux fuel n acc) = true.
Proof.
  induction fuel as [|fuel IH]; intros n acc Hacc; [done|].
  rewrite utoa_aux_S. destruct (N.ltb_spec n 10) as [Hlt|Hge].
  - by apply is_digit_digit_of.
  - apply IH. apply is_digit_digit_of, N.mod_lt. lia.
Qed.

Lemma head_digit_utoa (n : N) : head_digit (utoa n) = true.
Proof.
  unfold utoa. rewrite utoa_aux_S. destruct (N.ltb_spec n 10) as [Hlt|Hge].
  - by apply is_digit_digit_of.
  - apply head_digit_utoa_aux. apply is_digit_digit_of, N.mod_lt. lia.
Qed.

Lemma itoa_not_count (z : Z) : String.eqb (itoa z) "#" = false.
Proof.
  apply String.eqb_neq. intros Heq. unfold itoa in Heq.
  destruct (z <? 0); [done|].
  pose proof (head_digit_utoa (Z.to_N z)) as Hd. by rewrite Heq in Hd.
Qed.

(** The entry that [getLastStateFromHistory] looks up is the last one
    of the history. *)
Lemma lastItem_array (s : defaultStash) (l : list Value) :
  namespaceOf (doc s) !! "state_history" = Some (VArr l) →
  Z.of_nat (length l) <= int64_max →
  lastItem s = last l.
Proof.
  intros Hh Hfit. unfold lastItem. rewrite Get_count, Get_index, Hh.
  cbn [mbind option_bind].
  change (gjson.Int (gjson.get ["#"] (VArr l)))
    with (wrap64 (Z.of_nat (length l))).
  assert (Hmax : int64_max = 9223372036854775807) by done.
  rewrite (wrap64_id (Z.of_nat (length l)))
    by (unfold is_int64, int64_min; lia).
  rewrite get_cons_arr, itoa_not_count, child_arr.
  destruct l as [|x l'].
  - done.
  - rewrite wrap64_id by (unfold is_int64, int64_min; cbn [length] in *; lia).
    rewrite parseUint_itoa by (cbn [length] in *; lia).
    destruct (Z.leb_spec 0 (Z.of_nat (length (x :: l')) - 1)) as [_|Hneg];
      [|cbn [length] in Hneg; lia].
    rewrite last_lookup.
    replace (Z.to_nat (Z.of_nat (length (x :: l')) - 1))
      with (pred (length (x :: l'))) by (cbn [length]; lia).
    generalize ((x :: l') !! pred (length (x :: l'))). by intros [?|].
Qed.

Lemma lastItem_absent (s : defaultStash) :
  namespaceOf (doc s) !! "state_history" = None → lastItem s = None.
Proof. intros Hh. unfold lastItem. by rewrite Get_index, Hh. Qed.

Lemma lastItem_history (s : defaultStash) (l : list Value) :
  historyOf s = Some l → Z.of_nat (length l) <= int64_max → lastItem s = last l.
Proof.
  intros [Hh|[Hh ->]]%historyOf_spec Hfit.
  - by apply lastItem_array.
  - by apply lastItem_absent.
Qed.

Lemma decodeEntry_eq (lastHistoryItem : gjson.Result) :
  (if negb (gjson.Exists lastHistoryItem) then mkLast None None None None
   else if negb (gjson.IsObject lastHistoryItem) then
     mkLast None None None (Some "last history item is not an object")
   else if negb (gjson.Exists (gjson.ResultGet lastHistoryItem "s")) then
     mkLast None None None (Some "last history item is missing a value for 'state'")
   else
     mkLast (Some (gjson.String (gjson.ResultGet lastHistoryItem "s")))
       (if gjson.Exists (gjson.ResultGet lastHistoryItem "u")
        then Some (gjson.String (gjson.ResultGet lastHistoryItem "u")) else None)
       (if gjson.Exists (gjson.ResultGet lastHistoryItem "n")
        then Some (gjson.Int (gjson.ResultGet lastHistoryItem "n")) else None)
       None)
  = decodeEntry lastHistoryItem.
Proof. by destruct lastHistoryItem. Qed.

Lemma getLast_decode (s : defaultStash) :
  getLastStateFromHistory s = decodeEntry (lastItem s).
Proof.
  unfold getLastStateFromHistory, lastItem. cbv zeta.
  apply decodeEntry_eq.
Qed.

End Reading.

Section Writing.

Lemma child_obj (k : string) (m : gmap string Value) :
  gjson.child k (VObj m) = m !! k.
Proof. reflexivity. Qed.

Lemma set_cons (k : string) (rest : list string) (raw v : Value) :
  sjson.set (k :: rest) raw v =
  match gjson.child k v with
  | Some c =>
      match rest with
      | [] => inl (sjson.put k raw v)
      | _ =>
          match sjson.set rest raw c with
          | inl c' => inl (sjson.put k c' v)
          | inr e => inr e
          end
      end
  | None =>
      let v' :=
        if sjson.is_container v then v
        else match sjson.atoui k with Some _ => VArr [] | None => VObj ∅ end in
      match v' with
      | VArr l =>
          match sjson.atoui k with
          | Some n =>
              inl (VArr (l ++ replicate (Z.to_nat n - length l) VNull
                           ++ [sjson.build rest raw]))
          | None =>
              if String.eqb k "-1" then inl (VArr (l ++ [sjson.build rest raw]))
              else inr ("cannot set array element for non-numeric key '"
                        +:+ k +:+ "'")
          end
      | VObj m => inl (VObj (<[ k := sjson.build rest raw ]> m))
      | _ => inl v'
      end
  end.
Proof. reflexivity. Qed.

(** A member written into an object, present before or not. *)
Lemma set_member (key : string) (raw : Value) (m : gmap string Value) :
  sjson.set [key] raw (VObj m) = inl (VObj (<[ key := raw ]> m)).
Proof.
  rewrite set_cons, child_obj. by destruct (m !! key).
Qed.

(** A member written into a value that is no container. *)
Lemma set_member_scalar (key : string) (raw v : Value) :
  sjson.is_container v = false → sjson.atoui key = None →
  sjson.set [key] raw v = inl (VObj {[ key := raw ]}).
Proof.
  intros Hc Ha. rewrite set_cons.
  assert (gjson.child key v = None) as -> by (by destruct v).
  cbv zeta. rewrite Hc, Ha. by rewrite insert_empty.
Qed.

Lemma set_member_array (key : string) (raw : Value) (l : list Value) :
  sjson.atoui key = None → String.eqb key "-1" = false →
  gjson.parseUint key = None →
  ∃ e, sjson.set [key] raw (VArr l) = inr e.
Proof.
  intros Ha Hk Hp. rewrite set_cons, child_arr, Hp. cbv zeta.
  change (sjson.is_container (VArr l)) with true. cbv iota.
  rewrite Ha, Hk. eauto.
Qed.

Lemma build_key (key : string) (raw : Value) :
  sjson.atoui key = None → String.eqb key "-1" = false →
  sjson.build [key] raw = VObj (<[ key := raw ]> ∅).
Proof.
  intros Ha Hk.
  change (sjson.build [key] raw)
    with (match sjson.atoui key with
          | Some n => VArr (replicate (Z.to_nat n) VNull ++ [raw])
          | None => if String.eqb key "-1" then VArr [raw]
                    else VObj {[ key := raw ]}
          end).
  by rewrite Ha, Hk, insert_empty.
Qed.

(** A path that a value without members cannot follow is created under
    the first key. *)
Lemma set_fresh_scalar (k : string) (rest : list string) (raw v : Value) :
  sjson.is_container v = false → sjson.atoui k = None →
  sjson.set (k :: rest) raw v = inl (VObj (<[ k := sjson.build rest raw ]> ∅)).
Proof.
  intros Hc Ha. rewrite set_cons.
  assert (gjson.child k v = None) as -> by (by destruct v).
  cbv zeta. by rewrite Hc, Ha.
Qed.

Lemma set_fresh_member (k : string) (rest : list string) (raw : Value)
    (m : gmap string Value) :
  m !! k = None →
  sjson.set (k :: rest) raw (VObj m) = inl (VObj (<[ k := sjson.build rest raw ]> m)).
Proof. intros Hm. by rewrite set_cons, child_obj, Hm. Qed.

Lemma set_inside_member (k : string) (rest : list string) (raw c : Value)
    (m : gmap string Value) :
  m !! k = Some c → rest ≠ [] →
  sjson.set (k :: rest) raw (VObj m) =
  match sjson.set rest raw c with
  | inl c' => inl (VObj (<[ k := c' ]> m))
  | inr e => inr e
  end.
Proof.
  intros Hm Hrest. rewrite set_cons, child_obj, Hm. by destruct rest.
Qed.

(** Writing [key] in the reserved namespace. *)
Lemma set_namespace (key : string) (raw v : Value) :
  sjson.atoui key = None → String.eqb key "-1" = false →
  blocked v = false →
  sjson.set ["_"; key] raw v =
  inl (VObj (<[ "_" := VObj (<[ key := raw ]> (namespaceOf v)) ]> (rootOf v))).
Proof.
  intros Ha Hk Hb.
  destruct v as [| | | |l|m];
    try (rewrite set_fresh_scalar by done; by rewrite build_key).
  unfold namespaceOf, rootOf. unfold blocked in Hb.
  destruct (m !! "_") as [c|] eqn:Hm.
  - rewrite (set_inside_member _ _ _ c) by done.
    destruct c as [| | | |l|ns]; try done;
      first [ by rewrite set_member
            | rewrite set_member_scalar by done; by rewrite insert_empty ].
  - rewrite set_fresh_member by done. by rewrite build_key.
Qed.

Lemma build_history (raw : Value) :
  sjson.build ["state_history"; "-1"] raw = VObj (<[ "state_history" := VArr [raw] ]> ∅).
Proof.
  change (sjson.build ["state_history"; "-1"] raw)
    with (VObj {[ "state_history" := VArr [raw] ]}).
  by rewrite insert_empty.
Qed.

Lemma set_append (raw : Value) (l : list Value) :
  sjson.set ["-1"] raw (VArr l) = inl (VArr (l ++ [raw])).
Proof. by rewrite set_cons, child_arr. Qed.

(** What a write under [-1] makes of the value found under
    [state_history]. *)
Lemma set_entry (raw h : Value) :
  sjson.set ["-1"] raw h = inl (appendEntry (Some h) raw).
Proof.
  destruct h as [| | | |l|m]; first [ by rewrite set_member_scalar
                                    | by rewrite set_append
                                    | by rewrite set_member ].
Qed.

Lemma set_history_in (raw c : Value) :
  (∀ l, c ≠ VArr l) →
  sjson.set ["state_history"; "-1"] raw c =
  inl (VObj (<[ "state_history" :=
                  appendEntry (namespaceOf (VObj {[ "_" := c ]}) !! "state_history") raw ]>
               (namespaceOf (VObj {[ "_" := c ]})))).
Proof.
  intros Hc. unfold namespaceOf. rewrite lookup_singleton_eq.
  destruct c as [| | | |l|ns];
    try (rewrite set_fresh_scalar by done; by rewrite lookup_empty).
  - by destruct (Hc l).
  - destruct (ns !! "state_history") as [h|] eqn:Hh.
    + rewrite (set_inside_member _ _ _ h) by done. by rewrite set_entry.
    + by rewrite set_fresh_member.
Qed.

(** Appending an entry to the history. *)
Lemma set_history (raw v : Value) :
  blocked v = false →
  sjson.set ["_"; "state_history"; "-1"] raw v =
  inl (VObj (<[ "_" := VObj (<[ "state_history" :=
                                   appendEntry (namespaceOf v !! "state_history") raw ]>
                                (namespaceOf v)) ]> (rootOf v))).
Proof.
  intros Hb.
  destruct v as [| | | |l|m];
    try (rewrite set_fresh_scalar by done; by rewrite build_history).
  unfold rootOf. unfold blocked in Hb.
  destruct (m !! "_") as [c|] eqn:Hm.
  - rewrite (set_inside_member _ _ _ c) by done.
    rewrite set_history_in by (intros l ->; done).
    unfold namespaceOf. by rewrite Hm, lookup_singleton_eq.
  - rewrite set_fresh_member by done. rewrite build_history.
    unfold namespaceOf. by rewrite Hm, lookup_empty.
Qed.

Lemma set_key_array (k : string) (rest : list string) (raw : Value) (l : list Value) :
  sjson.atoui k = None → String.eqb k "-1" = false → gjson.parseUint k = None →
  ∃ e, sjson.set (k :: rest) raw (VArr l) = inr e.
Proof.
  intros Ha Hk Hp. rewrite set_cons, child_arr, Hp. cbv zeta.
  change (sjson.is_container (VArr l)) with true. cbv iota.
  rewrite Ha, Hk. eauto.
Qed.

(** An array in the way: nothing can be written into the namespace. *)
Lemma set_blocked (k : string) (rest : list string) (raw v : Value) :
  sjson.atoui k = None → String.eqb k "-1" = false → gjson.parseUint k = None →
  blocked v = true →
  ∃ e, sjson.set ("_" :: k :: rest) raw v = inr e.
Proof.
  intros Ha Hk Hp Hb. destruct v as [| | | |l|m]; try done.
  - by apply set_key_array.
  - unfold blocked in Hb. destruct (m !! "_") as [[| | | |l|ns]|] eqn:Hm; try done.
    rewrite (set_inside_member _ _ _ (VArr l)) by done.
    destruct (set_key_array k rest raw l Ha Hk Hp) as [e ->]. eauto.
Qed.

End Writing.

Section Deleting.

Lemma delete_cons (k : string) (rest : list string) (v : Value) :
  sjson.delete (k :: rest) v =
  let n := gjson.Int (gjson.get ["#"] v) in
  let k' := if String.eqb k "-1" && (0 <? n) then itoa (wrap64 (n - 1)) else k in
  match gjson.child k' v with
  | Some c =>
      match rest with
      | [] => Some (sjson.remove k' v)
      | _ =>
          match sjson.delete rest c with
          | Some c' => Some (sjson.put k' c' v)
          | None => None
          end
      end
  | None => None
  end.
Proof. reflexivity. Qed.

Lemma delete_plain (k : string) (rest : list string) (v : Value) :
  String.eqb k "-1" = false →
  sjson.delete (k :: rest) v =
  match gjson.child k v with
  | Some c =>
      match rest with
      | [] => Some (sjson.remove k v)
      | _ =>
          match sjson.delete rest c with
          | Some c' => Some (sjson.put k c' v)
          | None => None
          end
      end
  | None => None
  end.
Proof. intros Hk. rewrite delete_cons. cbv zeta. by rewrite Hk. Qed.

Lemma child_plain_not_object (k : string) (v : Value) :
  gjson.parseUint k = None → (∀ m, v ≠ VObj m) → gjson.child k v = None.
Proof.
  intros Hp Hv. destruct v as [| | | |l|m]; try done.
  - by rewrite child_arr, Hp.
  - by destruct (Hv m).
Qed.

Lemma delete_in_namespace (k : string) (rest : list string) (v : Value) :
  String.eqb k "-1" = false → gjson.parseUint k = None → rest ≠ [] →
  sjson.delete ("_" :: k :: rest) v =
  match namespaceOf v !! k with
  | Some h =>
      match sjson.delete rest h with
      | Some h' =>
          Some (VObj (<[ "_" := VObj (<[ k := h' ]> (namespaceOf v)) ]> (rootOf v)))
      | None => None
      end
  | None => None
  end.
Proof.
  intros Hk Hp Hrest. rewrite delete_plain by done.
  destruct v as [| | | |l|m]; try done.
  rewrite child_obj. unfold namespaceOf, rootOf.
  destruct (m !! "_") as [c|] eqn:Hm; [|by rewrite lookup_empty].
  rewrite delete_plain by done.
  destruct c as [| | | |l|ns]; try (by rewrite lookup_empty).
  - by rewrite child_arr, Hp, lookup_empty.
  - rewrite child_obj. destruct (ns !! k) as [h|]; [|done].
    destruct rest as [|k2 rest']; [done|].
    by destruct (sjson.delete (k2 :: rest') h).
Qed.

(** Deleting under [-1] drops the last element of an array. *)
Lemma delete_last (l : list Value) :
  Z.of_nat (length l) <= int64_max →
  sjson.delete ["-1"] (VArr l) =
  match l with
  | [] => None
  | _ => Some (VArr (take (length l - 1) l))
  end.
Proof.
  intros Hfit. rewrite delete_cons.
  change (gjson.Int (gjson.get ["#"] (VArr l))) with (wrap64 (Z.of_nat (length l))).
  assert (Hmax : int64_max = 9223372036854775807) by done.
  rewrite (wrap64_id (Z.of_nat (length l))) by (unfold is_int64, int64_min; lia).
  cbv zeta. change (String.eqb "-1" "-1") with true. cbn [andb].
  destruct l as [|x l'].
  - done.
  - destruct (Z.ltb_spec 0 (Z.of_nat (length (x :: l')))) as [_|Hz];
      [|cbn [length] in Hz; lia].
    rewrite wrap64_id by (unfold is_int64, int64_min; cbn [length] in *; lia).
    rewrite child_arr, parseUint_itoa by (cbn [length] in *; lia).
    destruct (Z.leb_spec 0 (Z.of_nat (length (x :: l')) - 1)) as [_|Hneg];
      [|cbn [length] in Hneg; lia].
    replace (Z.to_nat (Z.of_nat (length (x :: l')) - 1))
      with (length l') by (cbn [length]; lia).
    destruct (lookup_lt_is_Some_2 (x :: l') (length l')) as [y Hy];
      [cbn [length]; lia|].
    rewrite Hy. unfold sjson.remove.
    rewrite parseUint_itoa by (cbn [length] in *; lia).
    cbn [default from_option id].
    replace (Z.to_nat (Z.of_nat (length (x :: l')) - 1))
      with (length l') by (cbn [length]; lia).
    replace (length (x :: l') - 1)%nat with (length l') by (cbn [length]; lia).
    rewrite delete_take_drop, (drop_ge (x :: l') (S (length l'))) by done.
    by rewrite app_nil_r.
Qed.

(** Whatever else stands under [state_history] is no array afterwards. *)
Lemma delete_entry_not_array (h h' : Value) :
  (∀ l, h ≠ VArr l) → sjson.delete ["-1"] h = Some h' → ∀ l, h' ≠ VArr l.
Proof.
  intros Hh Hd l. rewrite delete_cons in Hd. cbv zeta in Hd.
  destruct h as [| | | |l0|m]; try done.
  - by destruct (Hh l0).
  - destruct (gjson.child _ (VObj m)); [|done]. by injection Hd as <-.
Qed.

End Deleting.

Section StashWrites.

Lemma stash_eta (s : defaultStash) : stashOf (doc s) = s.
Proof. by destruct s as [[d]]. Qed.

Lemma doc_stashOf (v : Value) : doc (stashOf v) = v.
Proof. reflexivity. Qed.

Lemma namespaceOf_withMember (key : string) (h v : Value) :
  namespaceOf (withMember key h v) = <[ key := h ]> (namespaceOf v).
Proof. unfold withMember, namespaceOf at 1. by rewrite lookup_insert_eq. Qed.

Lemma blocked_withMember (key : string) (h v : Value) :
  blocked (withMember key h v) = false.
Proof. unfold withMember, blocked. by rewrite lookup_insert_eq. Qed.

Lemma namespace_member_not_blocked (v : Value) (k : string) (x : Value) :
  namespaceOf v !! k = Some x → blocked v = false.
Proof.
  unfold namespaceOf, blocked. destruct v as [| | | |l|m]; try done.
  by destruct (m !! "_") as [[| | | |l|ns]|].
Qed.

Lemma Set_eq (path : string) (raw : Value) (s : defaultStash) :
  path ≠ "" →
  embedded.Set_ path raw s =
  match sjson.set (gjson.split path) raw (doc s) with
  | inl d => (None, stashOf d)
  | inr e => (Some ("failed to set data: " +:+ e), s)
  end.
Proof.
  intros Hp. destruct s as [[d]]. unfold embedded.Set_, jsonmanager.Set_, sjson.Set_.
  cbn [JSONManager jsonmanager.data doc].
  destruct path as [|c r]; [done|].
  by destruct (sjson.set _ raw d).
Qed.

Lemma Set_scheduled (raw : Value) (s : defaultStash) :
  blocked (doc s) = false →
  embedded.Set_ "_.scheduled_states" raw s =
  (None, stashOf (withMember "scheduled_states" raw (doc s))).
Proof.
  intros Hb. rewrite Set_eq by done.
  change (gjson.split "_.scheduled_states") with ["_"; "scheduled_states"].
  by rewrite set_namespace.
Qed.

Lemma Set_history (raw : Value) (s : defaultStash) :
  blocked (doc s) = false →
  embedded.Set_ "_.state_history.-1" raw s =
  (None, stashOf (withMember "state_history"
                    (appendEntry (namespaceOf (doc s) !! "state_history") raw) (doc s))).
Proof.
  intros Hb. rewrite Set_eq by done.
  change (gjson.split "_.state_history.-1") with ["_"; "state_history"; "-1"].
  by rewrite set_history.
Qed.

Lemma Set_scheduled_blocked (raw : Value) (s : defaultStash) :
  blocked (doc s) = true →
  ∃ e, embedded.Set_ "_.scheduled_states" raw s = (Some e, s).
Proof.
  intros Hb. rewrite Set_eq by done.
  change (gjson.split "_.scheduled_states") with ["_"; "scheduled_states"].
  destruct (set_blocked "scheduled_states" [] raw (doc s)) as [e ->]; try done. eauto.
Qed.

Lemma Set_history_blocked (raw : Value) (s : defaultStash) :
  blocked (doc s) = true →
  ∃ e, embedded.Set_ "_.state_history.-1" raw s = (Some e, s).
Proof.
  intros Hb. rewrite Set_eq by done.
  change (gjson.split "_.state_history.-1") with ["_"; "state_history"; "-1"].
  destruct (set_blocked "state_history" ["-1"] raw (doc s)) as [e ->]; try done. eauto.
Qed.

Lemma Delete_history (s : defaultStash) :
  embedded.Delete "_.state_history.-1" s =
  (None,
   match namespaceOf (doc s) !! "state_history" with
   | Some h =>
       match sjson.delete ["-1"] h with
       | Some h' => stashOf (withMember "state_history" h' (doc s))
       | None => s
       end
   | None => s
   end).
Proof.
  destruct s as [[d]].
  unfold embedded.Delete, jsonmanager.Delete, sjson.Delete.
  cbn [JSONManager jsonmanager.data doc].
  change (gjson.split "_.state_history.-1") with ["_"; "state_history"; "-1"].
  rewrite delete_in_namespace by done.
  destruct (namespaceOf d !! "state_history") as [h|]; [|done].
  by destruct (sjson.delete ["-1"] h).
Qed.

End StashWrites.

Section Queue.

Lemma scheduledStack_namespace (s : defaultStash) :
  scheduledStack s =
  (fun v => gjson.String (Some v))
    <$> gjson.Array (namespaceOf (doc s) !! "scheduled_states").
Proof. unfold scheduledStack. by rewrite Get_scheduled. Qed.

Lemma strings_read_back (names : slice StateName) :
  (fun v => gjson.String (Some v)) <$> gjson.Array (Some (jsonmanager.of_strings names))
  = coerceUTF8 <$> elems names.
Proof.
  destruct names as [|l]; [done|].
  cbn [jsonmanager.of_strings gjson.Array elems].
  by rewrite <- list_fmap_compose.
Qed.

Lemma scheduledStack_written (names : slice StateName) (v : Value) :
  scheduledStack (stashOf (withMember "scheduled_states" (jsonmanager.of_strings names) v))
  = coerceUTF8 <$> elems names.
Proof.
  rewrite scheduledStack_namespace, doc_stashOf, namespaceOf_withMember.
  rewrite lookup_insert_eq. apply strings_read_back.
Qed.

Lemma elems_append (names : slice StateName) (stack : list StateName) :
  elems (append names stack) = elems names ++ stack.
Proof. destruct stack as [|b stack]; cbn; [by rewrite app_nil_r|done]. Qed.

Lemma elems_variadic (names : list StateName) : elems (variadic names) = names.
Proof. by destruct names. Qed.

Lemma scheduledStack_not_blocked (s : defaultStash) :
  scheduledStack s ≠ [] → blocked (doc s) = false.
Proof.
  rewrite scheduledStack_namespace. intros Hq.
  destruct (namespaceOf (doc s) !! "scheduled_states") as [x|] eqn:Hx; [|done].
  by eapply namespace_member_not_blocked.
Qed.

(** Scheduling a batch: it stands in front of the queue afterwards, and
    every name of the queue has been written as JSON. *)
Lemma addScheduledStates_ok (names : slice StateName) (s : defaultStash) :
  blocked (doc s) = false →
  ∃ s', addScheduledStates names s = (None, s') ∧
        blocked (doc s') = false ∧
        scheduledStack s' = coerceUTF8 <$> (elems names ++ scheduledStack s) ∧
        historyOf s' = historyOf s.
Proof.
  intros Hb. unfold addScheduledStates. rewrite Set_scheduled by done.
  eexists. split; [done|]. split; [apply blocked_withMember|]. split.
  - by rewrite scheduledStack_written, elems_append.
  - unfold historyOf. rewrite !Get_history, doc_stashOf, namespaceOf_withMember.
    by rewrite lookup_insert_ne.
Qed.

Lemma addScheduledStates_blocked (names : slice StateName) (s : defaultStash) :
  blocked (doc s) = true → ∃ e, addScheduledStates names s = (Some e, s).
Proof.
  intros Hb. unfold addScheduledStates.
  destruct (Set_scheduled_blocked
              (jsonmanager.of_strings (append names (scheduledStack s))) s Hb)
    as [e ->]. eauto.
Qed.

(** Taking the next scheduled state: the head of the queue. *)
Lemma removeLastScheduledState_head (s : defaultStash) (name : StateName)
    (rest : list StateName) :
  scheduledStack s = name :: rest →
  ∃ s', removeLastScheduledState s = (Some name, None, s') ∧
        blocked (doc s') = false ∧
        scheduledStack s' = coerceUTF8 <$> rest ∧
        historyOf s' = historyOf s.
Proof.
  intros Hq. unfold removeLastScheduledState. rewrite Hq.
  rewrite Set_scheduled by (apply scheduledStack_not_blocked; by rewrite Hq).
  eexists. split; [done|]. split; [apply blocked_withMember|]. split.
  - by rewrite scheduledStack_written.
  - unfold historyOf. rewrite !Get_history, doc_stashOf, namespaceOf_withMember.
    by rewrite lookup_insert_ne.
Qed.

Lemma removeLastScheduledState_empty (s : defaultStash) :
  scheduledStack s = [] → removeLastScheduledState s = (None, None, s).
Proof. intros Hq. unfold removeLastScheduledState. by rewrite Hq. Qed.

(** The queue is empty exactly when nothing, [null] or the empty array
    stands under [_.scheduled_states]. *)
Lemma scheduledStack_empty_iff (s : defaultStash) :
  scheduledStack s = [] ↔
  embedded.Get "_.scheduled_states" s = None ∨
  embedded.Get "_.scheduled_states" s = Some VNull ∨
  embedded.Get "_.scheduled_states" s = Some (VArr []).
Proof.
  unfold scheduledStack.
  destruct (embedded.Get "_.scheduled_states" s) as [[| | | |[|x l]|m]|];
    cbn; split; intros H; try done; auto; destruct H as [H|[H|H]]; done.
Qed.

End Queue.

Section History.

Lemma Set_member_eq (key : string) (raw : Value) (m : gmap string Value) :
  key ≠ "" → gjson.split key = [key] →
  jsonmanager.Set_ key raw (jsonmanager.mkManager (VObj m))
  = (None, jsonmanager.mkManager (VObj (<[ key := raw ]> m))).
Proof.
  intros Hk Hs. unfold jsonmanager.Set_, sjson.Set_. cbn [jsonmanager.data].
  destruct key as [|c r]; [done|]. by rewrite Hs, set_member.
Qed.

(** The item that [addStateToHistory] builds before it writes. *)
Lemma historyItemFor_item (a : StateName) (u : option StateName) (n : option Z) :
  historyItemFor a u n = inr (jsonmanager.mkManager (itemFor a u n)).
Proof.
  unfold historyItemFor, itemFor, jsonmanager.NewJSONManager, keptCount.
  rewrite Set_member_eq by done.
  destruct n as [n|]; [destruct (0 <? n)|];
    rewrite ?Set_member_eq by done;
    destruct u as [u|]; by rewrite ?Set_member_eq by done.
Qed.

(** The keys of an item are ASCII: they are stored as they are. *)
Lemma kmap_item (x : Value) (y z : option Value) :
  let m : gmap string Value := <[ "s" := x ]> ∅ in
  let m := match y with Some y => <[ "n" := y ]> m | None => m end in
  let m := match z with Some z => <[ "u" := z ]> m | None => m end in
  kmap (M2 := gmap string) coerceUTF8 m = m.
Proof. destruct y, z; by vm_compute. Qed.

(** The item as [Set_] stores it after [Unmarshal]. *)
Lemma of_interface_item (a : StateName) (u : option StateName) (n : option Z) :
  jsonmanager.of_interface (jsonmanager.Unmarshal (jsonmanager.mkManager (itemFor a u n)))
  = entryFor a u n.
Proof.
  unfold jsonmanager.Unmarshal, itemFor, entryFor. cbn [jsonmanager.data]. cbv zeta.
  pose proof (kmap_item (VStr (coerceUTF8 a)) ((fun k => VNum (storedCount k)) <$> keptCount n)
                ((fun x => VStr (coerceUTF8 x)) <$> u)) as Hk.
  destruct (keptCount n) as [k|], u as [u|];
    cbn [jsonmanager.asGoValue jsonmanager.of_interface];
    rewrite ?fmap_insert, ?fmap_empty;
    cbn [jsonmanager.asGoValue jsonmanager.of_interface]; unfold jsonmanager.of_string;
    rewrite !coerceUTF8_idemp; f_equal; exact Hk.
Qed.

Lemma entryFor_lookup_s (a : StateName) (u : option StateName) (n : option Z) :
  gjson.Get (entryFor a u n) "s" = Some (VStr (coerceUTF8 a)).
Proof.
  change (gjson.Get (entryFor a u n) "s") with (gjson.get ["s"] (entryFor a u n)).
  unfold entryFor. cbv zeta. rewrite get_cons_obj.
  destruct u, (keptCount n);
    by rewrite ?lookup_insert_ne, lookup_insert_eq by done.
Qed.





Lemma entryState_entryFor (a : StateName) (u : option StateName) (n : option Z) :
  entryState (entryFor a u n) = coerceUTF8 a.
Proof. unfold entryState. by rewrite entryFor_lookup_s. Qed.

(** The three ways [addStateToHistory] can go. *)
Lemma addStateToHistory_error (a : StateName) (u : option StateName) (n : option Z)
    (s : defaultStash) (e : string) :
  err (getLastStateFromHistory s) = Some e →
  addStateToHistory a u n s = (Some e, s).
Proof.
  intros He. unfold addStateToHistory.
  destruct (getLastStateFromHistory s) as [x y z w]. cbn [err] in He. by subst w.
Qed.

Lemma addStateToHistory_same (a : StateName) (u : option StateName) (n : option Z)
    (s : defaultStash) :
  err (getLastStateFromHistory s) = None →
  stateName (getLastStateFromHistory s) = Some a →
  addStateToHistory a u n s = (None, s).
Proof.
  intros He Ha. unfold addStateToHistory.
  destruct (getLastStateFromHistory s) as [x y z w]. cbn [err stateName] in He, Ha.
  subst w x. by rewrite String.eqb_refl.
Qed.

Lemma addStateToHistory_write (a : StateName) (u : option StateName) (n : option Z)
    (s : defaultStash) :
  err (getLastStateFromHistory s) = None →
  stateName (getLastStateFromHistory s) ≠ Some a →
  addStateToHistory a u n s =
  match embedded.Set_ "_.state_history.-1" (entryFor a u n) s with
  | (Some e, s') => (Errorf "failed to update stashed history: " e, s')
  | (None, s') => (None, s')
  end.
Proof.
  intros He Ha. unfold addStateToHistory.
  destruct (getLastStateFromHistory s) as [x y z w]. cbn [err stateName] in He, Ha.
  subst w. rewrite historyItemFor_item, of_interface_item.
  destruct x as [x|]; [|done].
  destruct (String.eqb_spec x a) as [->|Hne]; [done|]. done.
Qed.

End History.

Section HistoryEffects.

Lemma historyOf_withMember_array (l : list Value) (v : Value) :
  historyOf (stashOf (withMember "state_history" (VArr l) v)) = Some l.
Proof.
  unfold historyOf. rewrite Get_history, doc_stashOf, namespaceOf_withMember.
  by rewrite lookup_insert_eq.
Qed.

Lemma historyOf_withMember_other (h v : Value) :
  (∀ l, h ≠ VArr l) →
  historyOf (stashOf (withMember "state_history" h v)) = None.
Proof.
  intros Hh. unfold historyOf. rewrite Get_history, doc_stashOf, namespaceOf_withMember.
  rewrite lookup_insert_eq. destruct h as [| | | |l|m]; try done. by destruct (Hh l).
Qed.

Lemma historyOf_None (s : defaultStash) :
  historyOf s = None →
  ∃ h, namespaceOf (doc s) !! "state_history" = Some h ∧ ∀ l, h ≠ VArr l.
Proof.
  unfold historyOf. rewrite Get_history.
  destruct (_ !! _) as [h|]; [|done]. intros Hh. exists h. split; [done|].
  intros l ->. done.
Qed.

(** The history after an entry has been written under [-1]. *)
Lemma historyOf_appended (raw : Value) (s : defaultStash) :
  historyOf (stashOf (withMember "state_history"
               (appendEntry (namespaceOf (doc s) !! "state_history") raw) (doc s)))
  = (fun l => l ++ [raw]) <$> historyOf s.
Proof.
  destruct (historyOf s) as [l|] eqn:Hl.
  - apply historyOf_spec in Hl as [Hl|[Hl ->]]; rewrite Hl;
      apply historyOf_withMember_array.
  - apply historyOf_None in Hl as (h & -> & Hh).
    apply historyOf_withMember_other.
    destruct h as [| | | |l|m]; try done. by destruct (Hh l).
Qed.

(** [removeLastStateFromHistory] never fails, and drops the last entry
    of the history. *)
Lemma removeLastStateFromHistory_effect (s : defaultStash) :
  Z.of_nat (length (default [] (historyOf s))) <= int64_max →
  ∃ s', removeLastStateFromHistory s = (None, s') ∧
        historyOf s' = (fun l => take (length l - 1) l) <$> historyOf s ∧
        (historyOf s = Some [] → s' = s).
Proof.
  intros Hfit. unfold removeLastStateFromHistory. rewrite Delete_history.
  eexists. split; [done|].
  destruct (historyOf s) as [l|] eqn:Hl.
  - cbn [default from_option id] in Hfit.
    apply historyOf_spec in Hl as Hl'. destruct Hl' as [Hh|[Hh ->]]; rewrite Hh.
    + rewrite delete_last by done. destruct l as [|x l'].
      * by rewrite Hl.
      * split; [|done]. apply historyOf_withMember_array.
    + by rewrite Hl.
  - split; [|done]. apply historyOf_None in Hl as Hl'. destruct Hl' as (h & -> & Hh).
    destruct (sjson.delete ["-1"] h) as [h'|] eqn:Hd; [|done].
    apply historyOf_withMember_other. by eapply delete_entry_not_array.
Qed.

Lemma getLast_history (s : defaultStash) (l : list Value) :
  historyOf s = Some l → Z.of_nat (length l) <= int64_max →
  getLastStateFromHistory s = decodeEntry (last l).
Proof. intros Hl Hfit. by rewrite getLast_decode, (lastItem_history s l). Qed.

Lemma Set_error (path : string) (raw : Value) (s s' : defaultStash) (e : string) :
  embedded.Set_ path raw s = (Some e, s') → s' = s.
Proof.
  destruct s as [[d]]. unfold embedded.Set_, jsonmanager.Set_.
  by destruct (sjson.Set_ _ _ _); intros [= _ <-].
Qed.

Lemma Delete_error (path : string) (s s' : defaultStash) (e : string) :
  embedded.Delete path s = (Some e, s') → s' = s.
Proof.
  destruct s as [[d]]. unfold embedded.Delete, jsonmanager.Delete.
  by destruct (sjson.Delete _ _); intros [= _ <-].
Qed.

(** All that [addStateToHistory] can do to a stash. *)
Lemma addStateToHistory_effect (a : StateName) (u : option StateName) (n : option Z)
    (s : defaultStash) :
  (∃ e, addStateToHistory a u n s = (e, s)) ∨
  (err (getLastStateFromHistory s) = None ∧
   stateName (getLastStateFromHistory s) ≠ Some a ∧
   blocked (doc s) = false ∧
   ∃ s', addStateToHistory a u n s = (None, s') ∧
         blocked (doc s') = false ∧
         historyOf s' = (fun l => l ++ [entryFor a u n]) <$> historyOf s ∧
         scheduledStack s' = scheduledStack s).
Proof.
  destruct (err (getLastStateFromHistory s)) as [e|] eqn:He.
  { left. eexists. by apply addStateToHistory_error. }
  destruct (decide (stateName (getLastStateFromHistory s) = Some a)) as [Ha|Ha].
  { left. eexists. by apply addStateToHistory_same. }
  rewrite addStateToHistory_write by done.
  destruct (blocked (doc s)) eqn:Hb.
  - left. destruct (Set_history_blocked (entryFor a u n) s Hb) as [e ->]. eauto.
  - right. do 3 (split; [done|]). rewrite Set_history by done.
    eexists. split; [done|]. split; [apply blocked_withMember|]. split.
    + apply historyOf_appended.
    + rewrite !scheduledStack_namespace, doc_stashOf, namespaceOf_withMember.
      by rewrite lookup_insert_ne.
Qed.



Lemma coerceUTF8_invalidName : coerceUTF8 invalidName = replacement "".
Proof. reflexivity. Qed.

Lemma replacement_not_invalidName : replacement "" ≠ invalidName.
Proof. discriminate. Qed.

End HistoryEffects.

Section Invariant.

Lemma adjacentDistinct_nil : adjacentDistinct [].
Proof. intros i a b Ha. done. Qed.

Lemma adjacentDistinct_take (l : list StateName) (k : nat) :
  adjacentDistinct l → adjacentDistinct (take k l).
Proof.
  intros Hl i a b Ha Hb.
  apply lookup_take_Some in Ha as [Ha _], Hb as [Hb _]. by eapply Hl.
Qed.

Lemma adjacentDistinct_snoc (l : list StateName) (a : StateName) :
  adjacentDistinct l → last l ≠ Some a → adjacentDistinct (l ++ [a]).
Proof.
  intros Hl Hlast i x y Hx Hy.
  destruct (decide (S i < length l)%nat) as [Hlt|Hge].
  - rewrite lookup_app_l in Hx by lia. rewrite lookup_app_l in Hy by lia.
    by eapply Hl.
  - assert (S i = length l) as Hi.
    { apply lookup_lt_Some in Hy. rewrite length_app in Hy. cbn in Hy. lia. }
    rewrite lookup_app_l in Hx by lia.
    rewrite lookup_app_r in Hy by lia.
    replace (S i - length l)%nat with 0%nat in Hy by lia. injection Hy as <-.
    rewrite last_lookup in Hlast.
    replace (pred (length l)) with i in Hlast by lia. congruence.
Qed.

Lemma decodeEntry_state (e : Value) :
  err (decodeEntry (Some e)) = None →
  stateName (decodeEntry (Some e)) = Some (entryState e).
Proof.
  unfold decodeEntry.
  destruct (negb (gjson.IsObject (Some e))); [done|].
  by destruct (negb (gjson.Exists (gjson.Get e "s"))).
Qed.

Lemma decodeEntry_malformed (e : Value) :
  wellFormedEntry e = false →
  decodeEntry (Some e) =
  mkLast None None None
    (Some (if gjson.IsObject (Some e)
           then "last history item is missing a value for 'state'"
           else "last history item is not an object")).
Proof.
  unfold wellFormedEntry, decodeEntry.
  destruct (gjson.IsObject (Some e)); [|done].
  cbn [andb negb]. by intros ->.
Qed.

Lemma decodeEntry_wellFormed (e : Value) :
  wellFormedEntry e = true → err (decodeEntry (Some e)) = None.
Proof.
  unfold wellFormedEntry, decodeEntry. intros [-> ->]%andb_prop. done.
Qed.


(** One mutation makes the history at most one entry longer, and keeps
    it free of adjacent repetitions when the name it adds is UTF-8. *)
Lemma applyMutation_history (s : defaultStash) (m : mutation) :
  Z.of_nat (historyLength s) <= int64_max →
  (historyLength (applyMutation s m) <= S (historyLength s))%nat ∧
  (validMutation m → adjacentDistinct (historyStates s) →
   adjacentDistinct (historyStates (applyMutation s m))).
Proof.
  unfold historyLength. intros Hfit.
  destruct m as [a u n| |names|]; cbn [applyMutation validMutation].
  - destruct (addStateToHistory_effect a u n s)
      as [[e ->]|(He & Ha & Hb & s' & -> & _ & Hh & _)]; [by auto|].
    cbn [snd]. unfold historyStates. rewrite Hh.
    destruct (historyOf s) as [l|] eqn:Hl; cbn [fmap option_fmap option_map default
      from_option id]; [|split; [cbn; lia|intros; apply adjacentDistinct_nil]].
    split; [rewrite length_app; cbn; lia|]. intros Hv Hinv.
    rewrite fmap_app. cbn [fmap list_fmap].
    rewrite entryState_entryFor, coerceUTF8_valid by done.
    apply adjacentDistinct_snoc; [done|].
    rewrite fmap_last. cbn [default from_option id] in Hfit.
    rewrite (getLast_history s l) in He, Ha by done.
    destruct (last l) as [e|]; [|done].
    rewrite decodeEntry_state in Ha by done. cbn. congruence.
  - destruct (removeLastStateFromHistory_effect s Hfit) as (s' & -> & Hh & _).
    cbn [snd]. unfold historyStates in *. rewrite Hh.
    destruct (historyOf s) as [l|]; cbn [fmap option_fmap option_map default
      from_option id] in *; [|split; [cbn; lia|intros; apply adjacentDistinct_nil]].
    split; [rewrite length_take; lia|]. intros _ Hinv.
    rewrite fmap_take. by apply adjacentDistinct_take.
  - destruct (blocked (doc s)) eqn:Hb.
    + destruct (addScheduledStates_blocked names s Hb) as [e ->]. by auto.
    + destruct (addScheduledStates_ok names s Hb) as (s' & -> & _ & _ & Hh).
      cbn [snd]. unfold historyStates in *. rewrite Hh. by auto.
  - destruct (scheduledStack s) as [|name rest] eqn:Hq.
    + rewrite removeLastScheduledState_empty by done. by auto.
    + destruct (removeLastScheduledState_head s name rest Hq) as (s' & -> & _ & _ & Hh).
      cbn [snd]. unfold historyStates in *. rewrite Hh. by auto.
Qed.

Lemma run_snoc (ms : list mutation) (m : mutation) (s : defaultStash) :
  run (ms ++ [m]) s = applyMutation (run ms s) m.
Proof. unfold run. by rewrite foldl_app. Qed.

(** Every stash reached from the empty one has a history no longer than
    the run, and keeps the invariant when the names added are UTF-8. *)
Lemma run_history (ms : list mutation) :
  Z.of_nat (length ms) <= int64_max →
  (historyLength (run ms NewStash) <= length ms)%nat ∧
  (Forall validMutation ms → adjacentDistinct (historyStates (run ms NewStash))).
Proof.
  unfold historyLength. induction ms as [|m ms IH] using rev_ind; intros Hlen.
  - split; [done|intros; apply adjacentDistinct_nil].
  - rewrite length_app in Hlen. cbn [length] in Hlen.
    destruct IH as [Hhl Hinv]; [lia|].
    rewrite run_snoc.
    destruct (applyMutation_history (run ms NewStash) m) as [Hhl' Hinv'];
      [unfold historyLength; lia|]. unfold historyLength in Hhl'.
    split; [rewrite length_app; cbn [length]; lia|].
    intros [Hms Hm%Forall_inv]%Forall_app. by auto.
Qed.

End Invariant.

Section Shape.

(** [getLastStateFromHistory] looks at nothing but the value under
    [state_history] of the namespace. *)
Lemma getLast_namespace (s1 s2 : defaultStash) :
  namespaceOf (doc s1) !! "state_history" = namespaceOf (doc s2) !! "state_history" →
  getLastStateFromHistory s1 = getLastStateFromHistory s2.
Proof.
  intros Hns. rewrite !getLast_decode. unfold lastItem.
  by rewrite !Get_count, !Get_index, Hns.
Qed.

Lemma rootOf_withMember (key : string) (h v : Value) :
  rootOf (withMember key h v) =
  <[ "_" := VObj (<[ key := h ]> (namespaceOf v)) ]> (rootOf v).
Proof. reflexivity. Qed.

(** One mutation leaves the stash as it is, or writes one member of the
    namespace: the history operations [state_history], the queue
    operations [scheduled_states]. *)
Lemma applyMutation_shape (s : defaultStash) (m : mutation) :
  applyMutation s m = s ∨
  ∃ h, applyMutation s m = stashOf (withMember (touches m) h (doc s)).
Proof.
  destruct m as [a u n| |names|]; cbn [applyMutation touches].
  - destruct (err (getLastStateFromHistory s)) as [e|] eqn:He.
    { left. by rewrite (addStateToHistory_error a u n s e). }
    destruct (decide (stateName (getLastStateFromHistory s) = Some a)) as [Ha|Ha].
    { left. by rewrite addStateToHistory_same. }
    rewrite addStateToHistory_write by done.
    destruct (blocked (doc s)) eqn:Hb.
    + left. by destruct (Set_history_blocked (entryFor a u n) s Hb) as [e ->].
    + right. rewrite Set_history by done. by eexists.
  - unfold removeLastStateFromHistory. rewrite Delete_history. cbn [snd].
    destruct (namespaceOf (doc s) !! "state_history") as [h|]; [|by left].
    destruct (sjson.delete ["-1"] h) as [h'|]; [|by left].
    right. by eexists.
  - destruct (blocked (doc s)) eqn:Hb.
    + left. by destruct (addScheduledStates_blocked names s Hb) as [e ->].
    + right. unfold addScheduledStates. rewrite Set_scheduled by done. by eexists.
  - unfold removeLastScheduledState.
    destruct (scheduledStack s) as [|name rest] eqn:Hq; [by left|].
    right. rewrite Set_scheduled by (apply scheduledStack_not_blocked; by rewrite Hq).
    by eexists.
Qed.

(** A mutation changes no member of the namespace but the one it is
    about. *)
Lemma applyMutation_frame (s : defaultStash) (m : mutation) (k : string) :
  k ≠ touches m →
  namespaceOf (doc (applyMutation s m)) !! k = namespaceOf (doc s) !! k.
Proof.
  intros Hk. destruct (applyMutation_shape s m) as [->|(h & ->)]; [done|].
  rewrite doc_stashOf, namespaceOf_withMember. by rewrite lookup_insert_ne.
Qed.

End Shape.

(** * The properties of the stash *)

Section Claims.


(** C1, as stated, fails for a name that is not UTF-8: the queue holds
    U+FFFD for each of its bytes that is not, so scheduling [A, B] and
    then the one byte 0xFF on the fresh stash gives a queue that is not
    [0xFF, A, B], and the state taken next is not the name given. *)
Lemma scheduled_queue_prepend_then_take_counterexample :
  ∃ s1 s2 s3,
    addScheduledStates (variadic ["A"; "B"]) NewStash = (None, s1) ∧
    addScheduledStates (variadic [invalidName]) s1 = (None, s2) ∧
    scheduledStack s2 = [replacement ""; "A"; "B"] ∧
    scheduledStack s2 ≠ [invalidName; "A"; "B"] ∧
    removeLastScheduledState s2 = (Some (replacement ""), None, s3) ∧
    Some (replacement "") ≠ Some invalidName.
Proof.
  destruct (addScheduledStates_ok (variadic ["A"; "B"]) NewStash eq_refl)
    as (s1 & H1 & Hb1 & Hq1 & _).
  destruct (addScheduledStates_ok (variadic [invalidName]) s1 Hb1)
    as (s2 & H2 & Hb2 & Hq2 & _).
  rewrite Hq1 in Hq2.
  change (scheduledStack s2 = [replacement ""; "A"; "B"]) in Hq2.
  destruct (removeLastScheduledState_head s2 _ _ Hq2) as (s3 & H3 & _).
  exists s1, s2, s3. do 3 (split; [done|]).
  split; [by rewrite Hq2|]. split; [done|discriminate].
Qed.

(** C1, for names that are UTF-8.  [addScheduledStates] puts its batch,
    in the order given, in front of the queue, and
    [removeLastScheduledState] takes the head: on every stash whose
    namespace can be written the queue after a batch is the batch
    followed by the old queue, each name as JSON holds it; when the
    names given and the names queued are UTF-8, the queue is the batch
    followed by the old queue, scheduling [A, B] and then [C] gives
    [C, A, B] followed by what was queued before (so [C, A, B] on an
    empty queue), and the next state taken is [C], which leaves [A, B]
    in front. *)
Theorem scheduled_queue_prepend_then_take (s : defaultStash) (A B C : StateName) :
  blocked (doc s) = false →
  validUTF8 A = true → validUTF8 B = true → validUTF8 C = true →
  allValid (scheduledStack s) →
  (∀ names : slice StateName,
     ∃ s', addScheduledStates names s = (None, s') ∧
           scheduledStack s' = coerceUTF8 <$> (elems names ++ scheduledStack s) ∧
           (allValid (elems names) →
            scheduledStack s' = elems names ++ scheduledStack s)) ∧
  ∃ s1 s2 s3,
    addScheduledStates (variadic [A; B]) s = (None, s1) ∧
    addScheduledStates (variadic [C]) s1 = (None, s2) ∧
    scheduledStack s2 = [C; A; B] ++ scheduledStack s ∧
    removeLastScheduledState s2 = (Some C, None, s3) ∧
    scheduledStack s3 = [A; B] ++ scheduledStack s.
Proof.
  intros Hb HA HB HC HQ.
  assert (Hadd : ∀ (names : slice StateName) (s0 : defaultStash),
            blocked (doc s0) = false → allValid (elems names) →
            allValid (scheduledStack s0) →
            ∃ s', addScheduledStates names s0 = (None, s') ∧ blocked (doc s') = false ∧
                  scheduledStack s' = elems names ++ scheduledStack s0).
  { intros names s0 Hb0 Hn Hq.
    destruct (addScheduledStates_ok names s0 Hb0) as (s' & H1 & Hb' & H2 & _).
    exists s'. split; [done|]. split; [done|].
    rewrite H2. apply coerceUTF8_all_valid. by apply Forall_app. }
  split.
  - intros names. destruct (addScheduledStates_ok names s Hb) as (s' & H1 & _ & H2 & _).
    exists s'. split; [done|]. split; [done|]. intros Hn.
    rewrite H2. apply coerceUTF8_all_valid. by apply Forall_app.
  - destruct (Hadd (variadic [A; B]) s Hb) as (s1 & H1 & Hb1 & Hq1);
      [by repeat constructor|done|].
    destruct (Hadd (variadic [C]) s1 Hb1) as (s2 & H2 & Hb2 & Hq2);
      [by repeat constructor|rewrite Hq1; apply Forall_app; split; [by repeat constructor|done]|].
    rewrite Hq1 in Hq2.
    destruct (removeLastScheduledState_head s2 C ([A; B] ++ scheduledStack s) Hq2)
      as (s3 & H3 & _ & Hq3 & _).
    exists s1, s2, s3. do 4 (split; [done|]).
    rewrite Hq3. apply coerceUTF8_all_valid.
    apply Forall_app. split; [by repeat constructor|done].
Qed.

Lemma scheduled_queue_prepend_then_take_witness :
  blocked (doc NewStash) = false ∧ allValid (scheduledStack NewStash) ∧
  ∃ s1 s2 s3,
    addScheduledStates (variadic ["A"; "B"]) NewStash = (None, s1) ∧
    addScheduledStates (variadic ["C"]) s1 = (None, s2) ∧
    scheduledStack s2 = ["C"; "A"; "B"] ++ scheduledStack NewStash ∧
    removeLastScheduledState s2 = (Some "C", None, s3) ∧
    scheduledStack s3 = ["A"; "B"] ++ scheduledStack NewStash.
Proof.
  split; [reflexivity|]. split; [apply Forall_nil_2|].
  apply (scheduled_queue_prepend_then_take NewStash "A" "B" "C");
    [reflexivity|reflexivity|reflexivity|reflexivity|apply Forall_nil_2].
Defined.








(** C4.  Nothing to return is no error: on an empty history
    [getLastStateFromHistory] returns [(nil, nil, nil, nil)], and on an
    empty queue [removeLastScheduledState] returns [(nil, nil)] and
    leaves the stash as it is. *)
Theorem empty_results_are_not_errors (s : defaultStash) :
  (historyOf s = Some [] →
   getLastStateFromHistory s = mkLast None None None None) ∧
  (scheduledStack s = [] →
   removeLastScheduledState s = (None, None, s)).
Proof.
  split.
  - intros Hl. by rewrite (getLast_history s []).
  - apply removeLastScheduledState_empty.
Qed.

Lemma empty_results_are_not_errors_witness :
  getLastStateFromHistory NewStash = mkLast None None None None ∧
  removeLastScheduledState NewStash = (None, None, NewStash).
Proof.
  split.
  - apply (proj1 (empty_results_are_not_errors NewStash)). reflexivity.
  - apply (proj2 (empty_results_are_not_errors NewStash)). reflexivity.
Defined.

Lemma malformed_entry_error (s : defaultStash) (l : list Value) (e : Value) :
  historyOf s = Some l → Z.of_nat (length l) <= int64_max →
  last l = Some e → wellFormedEntry e = false →
  getLastStateFromHistory s =
  mkLast None None None
    (Some (if gjson.IsObject (Some e)
           then "last history item is missing a value for 'state'"
           else "last history item is not an object")).
Proof.
  intros Hl Hfit He Hwf.
  rewrite (getLast_history s l), He by done. by apply decodeEntry_malformed.
Qed.

(** C5.  A last entry that is no object, or has no member ["s"], makes
    [getLastStateFromHistory] fail with the error for that defect and
    return nil for every other result. *)
Theorem malformed_last_entry_is_an_error (s : defaultStash) (l : list Value) (e : Value) :
  historyOf s = Some l → Z.of_nat (length l) <= int64_max →
  last l = Some e → wellFormedEntry e = false →
  getLastStateFromHistory s =
  mkLast None None None
    (Some (if gjson.IsObject (Some e)
           then "last history item is missing a value for 'state'"
           else "last history item is not an object")).
Proof.
  apply malformed_entry_error.
Qed.

Lemma malformed_last_entry_is_an_error_witness :
  getLastStateFromHistory
    (stashOf (VObj {[ "_" := VObj {[ "state_history" := VArr [VObj {[ "u" := VStr "X" ]}] ]} ]}))
  = mkLast None None None (Some "last history item is missing a value for 'state'") ∧
  getLastStateFromHistory
    (stashOf (VObj {[ "_" := VObj {[ "state_history" := VArr [VNum 5] ]} ]}))
  = mkLast None None None (Some "last history item is not an object").
Proof.
  split.
  - apply (malformed_last_entry_is_an_error _ [VObj {[ "u" := VStr "X" ]}]
             (VObj {[ "u" := VStr "X" ]})); [reflexivity|vm_compute; discriminate|
             reflexivity|reflexivity].
  - apply (malformed_last_entry_is_an_error _ [VNum 5] (VNum 5));
      [reflexivity|vm_compute; discriminate|reflexivity|reflexivity].
Defined.





(** C8.  Each mutating operation writes to the document of the stash at
    most once: the stash it leaves is the one it found, or the one that
    a single [Set] or [Delete] makes of it; and whenever it returns an
    error the stash is the one it found. *)
Theorem failed_operation_leaves_stash_unchanged (s : defaultStash) :
  (∀ a u n e s', addStateToHistory a u n s = (e, s') →
     (s' = s ∨ ∃ path raw, s' = (embedded.Set_ path raw s).2) ∧
     (e ≠ None → s' = s)) ∧
  (∀ e s', removeLastStateFromHistory s = (e, s') →
     (s' = s ∨ ∃ path, s' = (embedded.Delete path s).2) ∧
     (e ≠ None → s' = s)) ∧
  (∀ names e s', addScheduledStates names s = (e, s') →
     (s' = s ∨ ∃ path raw, s' = (embedded.Set_ path raw s).2) ∧
     (e ≠ None → s' = s)) ∧
  (∀ name e s', removeLastScheduledState s = (name, e, s') →
     (s' = s ∨ ∃ path raw, s' = (embedded.Set_ path raw s).2) ∧
     (e ≠ None → s' = s)).
Proof.
  split; [|split; [|split]].
  - intros a u n e s' H.
    destruct (err (getLastStateFromHistory s)) as [e0|] eqn:He.
    { rewrite (addStateToHistory_error a u n s e0 He) in H. injection H as <- <-. auto. }
    destruct (decide (stateName (getLastStateFromHistory s) = Some a)) as [Ha|Ha].
    { rewrite addStateToHistory_same in H by done. injection H as <- <-. auto. }
    rewrite addStateToHistory_write in H by done.
    destruct (embedded.Set_ "_.state_history.-1" (entryFor a u n) s) as [[e1|] s1] eqn:Hs;
      injection H as <- <-.
    + apply Set_error in Hs as ->. auto.
    + split; [|done]. right. eexists _, _. by rewrite Hs.
  - intros e s' H. unfold removeLastStateFromHistory in H.
    destruct (embedded.Delete "_.state_history.-1" s) as [[e1|] s1] eqn:Hs;
      injection H as <- <-.
    + apply Delete_error in Hs as ->. auto.
    + split; [|done]. right. eexists. by rewrite Hs.
  - intros names e s' H. unfold addScheduledStates in H.
    destruct (embedded.Set_ "_.scheduled_states" _ s) as [[e1|] s1] eqn:Hs;
      injection H as <- <-.
    + apply Set_error in Hs as ->. auto.
    + split; [|done]. right. eexists _, _. by rewrite Hs.
  - intros name e s' H. unfold removeLastScheduledState in H.
    destruct (scheduledStack s) as [|x rest]; [injection H as _ <- <-; auto|].
    destruct (embedded.Set_ "_.scheduled_states" _ s) as [[e1|] s1] eqn:Hs;
      injection H as _ <- <-.
    + apply Set_error in Hs as ->. auto.
    + split; [|done]. right. eexists _, _. by rewrite Hs.
Qed.

(** C9.  [removeLastStateFromHistory] on an empty history succeeds and
    changes nothing; the last state is still [(nil, nil, nil, nil)]. *)
Theorem remove_from_empty_history_is_noop (s : defaultStash) :
  historyOf s = Some [] →
  removeLastStateFromHistory s = (None, s) ∧
  getLastStateFromHistory s = mkLast None None None None.
Proof.
  intros Hl. split.
  - destruct (removeLastStateFromHistory_effect s) as (s' & H & _ & Hs).
    { by rewrite Hl. }
    by rewrite H, Hs.
  - by rewrite (getLast_history s []).
Qed.

Lemma remove_from_empty_history_is_noop_witness :
  removeLastStateFromHistory NewStash = (None, NewStash) ∧
  getLastStateFromHistory NewStash = mkLast None None None None.
Proof. apply (remove_from_empty_history_is_noop NewStash). reflexivity. Defined.

(** C10.  With a malformed last entry [addStateToHistory] returns the
    error of [getLastStateFromHistory] and writes nothing. *)
Theorem add_state_stops_at_malformed_history (s : defaultStash) (l : list Value)
    (e : Value) (a : StateName) (u : option StateName) (n : option Z) :
  historyOf s = Some l → Z.of_nat (length l) <= int64_max →
  last l = Some e → wellFormedEntry e = false →
  addStateToHistory a u n s = (err (getLastStateFromHistory s), s) ∧
  err (getLastStateFromHistory s) =
    Some (if gjson.IsObject (Some e)
          then "last history item is missing a value for 'state'"
          else "last history item is not an object").
Proof.
  intros Hl Hfit He Hwf.
  pose proof (malformed_entry_error s l e Hl Hfit He Hwf) as Hlast.
  rewrite Hlast. cbn [err]. split; [|done].
  apply addStateToHistory_error. by rewrite Hlast.
Qed.


Lemma failed_operation_leaves_stash_unchanged_witness :
  (addStateToHistory "A" None None (stashOf (VArr []))).1 ≠ None ∧
  (addStateToHistory "A" None None (stashOf (VArr []))).2 = stashOf (VArr []).
Proof.
  split; [vm_compute; discriminate|].
  apply (proj1 (failed_operation_leaves_stash_unchanged (stashOf (VArr [])))
           "A" None None
           (addStateToHistory "A" None None (stashOf (VArr []))).1
           (addStateToHistory "A" None None (stashOf (VArr []))).2);
    [apply surjective_pairing | vm_compute; discriminate].
Defined.

Lemma add_state_stops_at_malformed_history_witness :
  addStateToHistory "A" None None
    (stashOf (VObj {[ "_" := VObj {[ "state_history" := VArr [VNum 5] ]} ]}))
  = (Some "last history item is not an object",
     stashOf (VObj {[ "_" := VObj {[ "state_history" := VArr [VNum 5] ]} ]})).
Proof.
  destruct (add_state_stops_at_malformed_history
              (stashOf (VObj {[ "_" := VObj {[ "state_history" := VArr [VNum 5] ]} ]}))
              [VNum 5] (VNum 5) "A" None None) as [H1 H2];
    [reflexivity|vm_compute; discriminate|reflexivity|reflexivity|].
  rewrite H1, H2. reflexivity.
Defined.

End Claims.


Section Text.
Import jsontext.

Lemma chars_cons (c : ascii) (s : string) : chars (String c s) = c :: chars s.
Proof. reflexivity. Qed.

(** *** String literals *)

Lemma parse_str_escape_char (c : ascii) (r : list ascii) :
  parse_str (escape_char c ++ r) =
  match parse_str r with
  | Some (str, rest) => Some (c :: str, rest)
  | None => None
  end.
Proof.
  destruct c as [[] [] [] [] [] [] [] []]; reflexivity.
Qed.

Lemma parse_str_escaped (cs rest : list ascii) :
  parse_str (flat_map escape_char cs ++ quote :: rest) = Some (cs, rest).
Proof.
  induction cs as [|c cs IH]; [done|].
  cbn [flat_map]. rewrite <- app_assoc, parse_str_escape_char, IH. done.
Qed.

Lemma quoted_app (s : string) (rest : list ascii) :
  quoted s ++ rest = quote :: flat_map escape_char (chars s) ++ quote :: rest.
Proof. unfold quoted. cbn [app]. by rewrite <- app_assoc. Qed.

(** *** Numbers *)

Lemma chars_utoa_aux_read (fuel : nat) : ∀ (n : N) (acc : string) (rest : list ascii),
  (N.to_nat (N.log2 n) < fuel)%nat →
  read_digits (chars (utoa_aux fuel n acc) ++ rest) 0 =
  read_digits (chars acc ++ rest) n.
Proof.
  induction fuel as [|fuel IH]; intros n acc rest Hfuel; [lia|].
  rewrite utoa_aux_S. destruct (N.ltb_spec n 10) as [Hlt|Hge].
  - rewrite chars_cons. cbn [app read_digits].
    rewrite is_digit_digit_of, digit_val_digit_of by done. f_equal.
  - pose proof (log2_div10 n Hge) as Hlog.
    assert (Hdm : n = (10 * (n / 10) + n mod 10)%N) by (apply N.div_mod; lia).
    assert (Hm : (n mod 10 < 10)%N) by (apply N.mod_lt; lia).
    rewrite IH by lia. rewrite chars_cons. cbn [app read_digits].
    rewrite is_digit_digit_of, digit_val_digit_of by done. f_equal. lia.
Qed.

Lemma read_digits_end (rest : list ascii) (n : N) :
  number_goes_on rest = false → read_digits rest n = (n, rest).
Proof.
  destruct rest as [|c r]; [done|]. cbn [number_goes_on read_digits].
  intros H. apply orb_false_elim in H as [H _]. apply orb_false_elim in H as [H _].
  apply orb_false_elim in H as [-> _]. done.
Qed.

Lemma read_digits_utoa (n : N) (rest : list ascii) :
  number_goes_on rest = false →
  read_digits (chars (utoa n) ++ rest) 0 = (n, rest).
Proof.
  intros Hrest. unfold utoa. rewrite chars_utoa_aux_read by lia.
  cbn [chars list_ascii_of_string app]. by apply read_digits_end.
Qed.

Lemma head_nonzero_utoa_aux (fuel : nat) : ∀ (n : N) (acc : string),
  (0 < n)%N → (N.to_nat (N.log2 n) < fuel)%nat →
  head_nonzero (utoa_aux fuel n acc).
Proof.
  induction fuel as [|fuel IH]; intros n acc Hn Hfuel; [lia|].
  rewrite utoa_aux_S. destruct (N.ltb_spec n 10) as [Hlt|Hge].
  - exists n, acc. split; [done|lia].
  - pose proof (log2_div10 n Hge) as Hlog. apply IH; [|lia].
    apply N.div_str_pos. lia.
Qed.

Lemma parse_unsigned_utoa (n : N) (rest : list ascii) :
  number_goes_on rest = false →
  parse_unsigned (chars (utoa n) ++ rest) = Some (n, rest).
Proof.
  intros Hrest. destruct (N.eq_dec n 0%N) as [->|Hn].
  - change (chars (utoa 0%N)) with ["0"%char]. cbn [app parse_unsigned].
    change (is_digit "0") with true. change (nat_of_ascii "0" =? 48)%nat with true.
    cbv iota. by rewrite Hrest.
  - destruct (head_nonzero_utoa_aux (S (N.to_nat (N.log2 n))) n "")
      as (d & r & Hu & Hd); [lia|lia|].
    pose proof (read_digits_utoa n rest Hrest) as Hread.
    unfold utoa in *. rewrite Hu in *. rewrite chars_cons in *.
    cbn [app] in *. unfold parse_unsigned.
    rewrite is_digit_digit_of by lia.
    assert ((nat_of_ascii (digit_of d) =? 48)%nat = false) as ->.
    { apply Nat.eqb_neq. rewrite nat_of_digit_of by lia. lia. }
    rewrite Hread. by rewrite Hrest.
Qed.

Lemma digit_not_minus (c : ascii) : is_digit c = true → Ascii.eqb c "-" = false.
Proof. destruct c as [[] [] [] [] [] [] [] []]; done. Qed.

Lemma parse_number_itoa (z : Z) (rest : list ascii) :
  number_goes_on rest = false →
  parse_number (chars (itoa z) ++ rest) = Some (z, rest).
Proof.
  intros Hrest. unfold itoa. destruct (Z.ltb_spec z 0) as [Hneg|Hpos].
  - rewrite chars_cons. cbn [app parse_number].
    change (Ascii.eqb "-" "-") with true. cbv iota.
    rewrite parse_unsigned_utoa by done. cbn. do 2 f_equal. lia.
  - pose proof (parse_unsigned_utoa (Z.to_N z) rest Hrest) as Hp.
    pose proof (head_digit_utoa (Z.to_N z)) as Hd.
    destruct (utoa (Z.to_N z)) as [|c r]; [done|].
    rewrite chars_cons in *. cbn [app] in *. cbn [parse_number].
    cbn [head_digit] in Hd. rewrite digit_not_minus by done.
    rewrite Hp. cbn. do 2 f_equal. lia.
Qed.

(** *** Values *)

Lemma digit_starts_value (c : ascii) :
  is_digit c = true →
  is_ws c = false ∧ Ascii.eqb c "]" = false ∧
  Ascii.eqb c "n" = false ∧ Ascii.eqb c "t" = false ∧ Ascii.eqb c "f" = false ∧
  Ascii.eqb c quote = false ∧ Ascii.eqb c "[" = false ∧ Ascii.eqb c "{" = false.
Proof. destruct c as [[] [] [] [] [] [] [] []]; done. Qed.

Lemma itoa_head (z : Z) :
  ∃ c r, chars (itoa z) = c :: r ∧ (c = "-"%char ∨ is_digit c = true).
Proof.
  unfold itoa. destruct (z <? 0).
  - eexists _, _. split; [apply chars_cons|by left].
  - pose proof (head_digit_utoa (Z.to_N z)) as Hd.
    destruct (utoa (Z.to_N z)) as [|c r]; [done|].
    exists c, (chars r). split; [done|by right].
Qed.

(** A printed value starts with a character that is no white space and
    does not close an array. *)
Lemma print_head (v : Value) :
  ∃ c r, print_chars v = c :: r ∧ is_ws c = false ∧ Ascii.eqb c "]" = false.
Proof.
  destruct v as [|[]|z|s|l|m]; try (by eexists _, _).
  destruct (itoa_head z) as (c & r & Hc & [->|Hd]).
  - exists "-"%char, r. done.
  - exists c, r. split; [done|]. by destruct (digit_starts_value c Hd) as (? & ? & _).
Qed.

Lemma skip_ws_head (c : ascii) (r : list ascii) :
  is_ws c = false → skip_ws (c :: r) = c :: r.
Proof. intros Hc. cbn [skip_ws]. by rewrite Hc. Qed.

Lemma print_nonempty (v : Value) : (0 < length (print_chars v))%nat.
Proof. destruct (print_head v) as (c & r & -> & _). cbn. lia. Qed.

Lemma parse_value_S (fuel' : nat) (c : ascii) (r : list ascii) :
  parse_value (S fuel') (c :: r) =
  if Ascii.eqb c "n"%char then (fun rest => (VNull, rest)) <$> expect (chars "ull") r
  else if Ascii.eqb c "t"%char then
    (fun rest => (VBool true, rest)) <$> expect (chars "rue") r
  else if Ascii.eqb c "f"%char then
    (fun rest => (VBool false, rest)) <$> expect (chars "alse") r
  else if Ascii.eqb c quote then
    (fun '(str, rest) => (VStr (string_of_list_ascii str), rest)) <$> parse_str r
  else if Ascii.eqb c "["%char then
    match skip_ws r with
    | c' :: r' =>
        if Ascii.eqb c' "]"%char then Some (VArr [], r')
        else (fun '(l, rest) => (VArr l, rest)) <$> parse_elems fuel' (c' :: r')
    | [] => None
    end
  else if Ascii.eqb c "{"%char then
    match skip_ws r with
    | c' :: r' =>
        if Ascii.eqb c' "}"%char then Some (VObj ∅, r')
        else
          match parse_members fuel' (c' :: r') with
          | Some (kvs, rest) =>
              if bool_decide (NoDup kvs.*1)
              then Some (VObj (list_to_map kvs), rest) else None
          | None => None
          end
    | [] => None
    end
  else (fun '(n, rest) => (VNum n, rest)) <$> parse_number (c :: r).
Proof. reflexivity. Qed.

Lemma parse_elems_S (fuel' : nat) (s : list ascii) :
  parse_elems (S fuel') s =
  match parse_value fuel' s with
  | Some (v, r) =>
      match skip_ws r with
      | c :: r' =>
          if Ascii.eqb c ","%char then
            (fun '(l, rest) => (v :: l, rest)) <$> parse_elems fuel' (skip_ws r')
          else if Ascii.eqb c "]"%char then Some ([v], r')
          else None
      | [] => None
      end
  | None => None
  end.
Proof. reflexivity. Qed.

Lemma parse_members_S (fuel' : nat) (q : ascii) (r0 : list ascii) :
  parse_members (S fuel') (q :: r0) =
  if Ascii.eqb q quote then
    match parse_str r0 with
    | Some (k, r1) =>
        match skip_ws r1 with
        | c1 :: r2 =>
            if Ascii.eqb c1 ":"%char then
              match parse_value fuel' (skip_ws r2) with
              | Some (v, r3) =>
                  match skip_ws r3 with
                  | c :: r4 =>
                      if Ascii.eqb c ","%char then
                        (fun '(kvs, rest) =>
                           ((string_of_list_ascii k, v) :: kvs, rest))
                          <$> parse_members fuel' (skip_ws r4)
                      else if Ascii.eqb c "}"%char then
                        Some ([(string_of_list_ascii k, v)], r4)
                      else None
                  | [] => None
                  end
              | None => None
              end
            else None
        | [] => None
        end
    | None => None
    end
  else None.
Proof. reflexivity. Qed.

Lemma skip_ws_print (v : Value) (rest : list ascii) :
  skip_ws (print_chars v ++ rest) = print_chars v ++ rest.
Proof.
  destruct (print_head v) as (c & r & -> & Hc & _). by apply skip_ws_head.
Qed.

Lemma join_comma_cons2 (x y : list ascii) (items : list (list ascii)) :
  join_comma (x :: y :: items) = x ++ ","%char :: join_comma (y :: items).
Proof. reflexivity. Qed.

Lemma elems_head (l : list Value) (tail : list ascii) :
  l ≠ [] →
  ∃ c r, join_comma (print_chars <$> l) ++ tail = c :: r ∧
         is_ws c = false ∧ Ascii.eqb c "]" = false.
Proof.
  destruct l as [|x l]; [done|]. intros _.
  destruct (print_head x) as (c & r & Hx & Hc).
  destruct l as [|y l'].
  - cbn [fmap list_fmap join_comma]. rewrite Hx. by eexists _, _.
  - rewrite !fmap_cons, join_comma_cons2, <- app_assoc, Hx. by eexists _, _.
Qed.

Lemma skip_ws_elems (l : list Value) (tail : list ascii) :
  l ≠ [] →
  skip_ws (join_comma (print_chars <$> l) ++ tail)
  = join_comma (print_chars <$> l) ++ tail.
Proof.
  intros Hl. destruct (elems_head l tail Hl) as (c & r & -> & Hc & _).
  by apply skip_ws_head.
Qed.

Lemma parse_elems_print (l : list Value) :
  l ≠ [] → Forall round_trips l →
  ∀ (fuel : nat) (rest : list ascii),
    (length (join_comma (print_chars <$> l)) + 1 < fuel)%nat →
    parse_elems fuel (join_comma (print_chars <$> l) ++ "]"%char :: rest)
    = Some (l, rest).
Proof.
  induction l as [|x l IH]; [done|]. intros _ Hall fuel rest Hfuel.
  apply Forall_cons in Hall as [Hx Hall].
  destruct fuel as [|fuel']; [lia|]. rewrite parse_elems_S.
  destruct l as [|y l'].
  - cbn [fmap list_fmap join_comma] in *.
    rewrite Hx by (done || lia). done.
  - rewrite !fmap_cons, join_comma_cons2 in *. rewrite length_app in Hfuel.
    cbn [length] in Hfuel. pose proof (print_nonempty x).
    rewrite <- app_assoc. rewrite Hx by (done || lia).
    cbn [app skip_ws]. change (is_ws ",") with false. cbv iota.
    change (Ascii.eqb "," ",") with true. cbv iota.
    rewrite <- !fmap_cons.
    rewrite skip_ws_elems, IH by (done || lia). done.
Qed.

Lemma member_app (k : string) (x rest : list ascii) :
  member k x ++ rest =
  quote :: flat_map escape_char (chars k) ++ quote :: ":"%char :: x ++ rest.
Proof.
  unfold member. rewrite <- app_assoc, quoted_app. cbn [app]. done.
Qed.

Lemma members_head (kvs : list (string * Value)) (tail : list ascii) :
  kvs ≠ [] →
  ∃ r, join_comma (print_member <$> kvs) ++ tail = quote :: r.
Proof.
  destruct kvs as [|[k x] kvs]; [done|]. intros _.
  destruct kvs as [|y kvs'].
  - cbn [fmap list_fmap join_comma]. unfold print_member. cbn [fst snd].
    rewrite member_app. by eexists.
  - rewrite !fmap_cons, join_comma_cons2, <- app_assoc. unfold print_member at 1.
    cbn [fst snd]. rewrite member_app. by eexists.
Qed.

Lemma skip_ws_members (kvs : list (string * Value)) (tail : list ascii) :
  kvs ≠ [] →
  skip_ws (join_comma (print_member <$> kvs) ++ tail)
  = join_comma (print_member <$> kvs) ++ tail.
Proof.
  intros Hk. destruct (members_head kvs tail Hk) as (r & ->).
  by apply skip_ws_head.
Qed.

Lemma parse_members_print (kvs : list (string * Value)) :
  kvs ≠ [] → Forall (fun kx => round_trips kx.2) kvs →
  ∀ (fuel : nat) (rest : list ascii),
    (length (join_comma (print_member <$> kvs)) + 1 < fuel)%nat →
    parse_members fuel (join_comma (print_member <$> kvs) ++ "}"%char :: rest)
    = Some (kvs, rest).
Proof.
  induction kvs as [|[k x] kvs IH]; [done|]. intros _ Hall fuel rest Hfuel.
  apply Forall_cons in Hall as [Hx Hall]. cbn [snd] in Hx.
  destruct fuel as [|fuel']; [lia|].
  destruct kvs as [|[k2 y] kvs'].
  - cbn [fmap list_fmap join_comma] in *. unfold print_member in *. cbn [fst snd] in *.
    rewrite member_app. rewrite parse_members_S.
    change (Ascii.eqb quote quote) with true. cbv iota.
    rewrite parse_str_escaped. cbn [skip_ws]. change (is_ws ":") with false. cbv iota.
    change (Ascii.eqb ":" ":") with true. cbv iota.
    rewrite skip_ws_print.
    assert (length (print_chars x) < fuel')%nat.
    { unfold member in Hfuel. rewrite length_app in Hfuel. cbn [length] in Hfuel. lia. }
    rewrite Hx by done. cbn [skip_ws]. change (is_ws "}") with false. cbv iota.
    change (Ascii.eqb "}" ",") with false. change (Ascii.eqb "}" "}") with true.
    cbv iota. unfold chars. by rewrite string_of_list_ascii_of_string.
  - rewrite !fmap_cons, join_comma_cons2 in *. rewrite length_app in Hfuel.
    cbn [length] in Hfuel. unfold print_member at 1. unfold print_member at 1 in Hfuel.
    cbn [fst snd] in *.
    rewrite <- app_assoc, member_app. rewrite parse_members_S.
    change (Ascii.eqb quote quote) with true. cbv iota.
    rewrite parse_str_escaped. cbn [skip_ws]. change (is_ws ":") with false. cbv iota.
    change (Ascii.eqb ":" ":") with true. cbv iota.
    rewrite skip_ws_print.
    assert (length (print_chars x) < length (member k (print_chars x)))%nat.
    { unfold member. rewrite length_app. cbn [length]. lia. }
    rewrite Hx by (done || lia). cbn [app skip_ws]. change (is_ws ",") with false.
    cbv iota. change (Ascii.eqb "," ",") with true. cbv iota.
    rewrite <- !fmap_cons.
    rewrite skip_ws_members, IH by (done || lia).
    unfold chars. by rewrite string_of_list_ascii_of_string.
Qed.

Lemma print_obj (m : gmap string Value) :
  print_chars (VObj m) =
  "{"%char :: join_comma (print_member <$> map_to_list m) ++ ["}"%char].
Proof.
  cbn [print_chars]. rewrite map_fold_foldr.
  assert (Hl : ∀ l : list (string * Value),
            foldr (uncurry (fun k x acc => member k (print_chars x) :: acc)) [] l
            = print_member <$> l).
  { induction l as [|[k x] l IH]; [done|].
    cbn [foldr fmap list_fmap uncurry]. by rewrite IH. }
  by rewrite Hl.
Qed.

Lemma print_arr (l : list Value) :
  print_chars (VArr l) =
  "["%char :: join_comma (print_chars <$> l) ++ ["]"%char].
Proof.
  cbn [print_chars].
  assert (Hl : List.map print_chars l = print_chars <$> l).
  { induction l as [|x l IH]; [done|]. cbn [List.map fmap list_fmap]. by rewrite IH. }
  by rewrite Hl.
Qed.

Lemma length_join_elem (x : list ascii) (items : list (list ascii)) :
  x ∈ items → (length x <= length (join_comma items))%nat.
Proof.
  induction items as [|y items IH]; [by intros ?%elem_of_nil|].
  intros [->|Hx]%elem_of_cons.
  - destruct items; [done|]. rewrite join_comma_cons2, length_app. lia.
  - destruct items as [|z items']; [by apply elem_of_nil in Hx|].
    rewrite join_comma_cons2, length_app. cbn [length]. specialize (IH Hx). lia.
Qed.

Lemma dispatch_number (c : ascii) (r : list ascii) (fuel' : nat) :
  c = "-"%char ∨ is_digit c = true →
  parse_value (S fuel') (c :: r) =
  (fun '(n, rest) => (VNum n, rest)) <$> parse_number (c :: r).
Proof.
  intros [->|Hd]; [done|]. rewrite parse_value_S.
  destruct (digit_starts_value c Hd) as (_ & _ & -> & -> & -> & -> & -> & ->). done.
Qed.

(** Every value is read back from its text. *)
Lemma parse_print_value (n : nat) : ∀ v : Value,
  (length (print_chars v) < n)%nat → round_trips v.
Proof.
  induction n as [|n IH]; intros v Hn; [lia|].
  intros fuel rest Hfuel Hrest. destruct fuel as [|fuel']; [lia|].
  destruct v as [|[]|z|s|l|m].
  - done.
  - done.
  - done.
  - cbn [print_chars]. destruct (itoa_head z) as (c & r & Hc & Hhead).
    pose proof (parse_number_itoa z rest Hrest) as Hp.
    rewrite Hc in *. cbn [app] in *. rewrite dispatch_number by done.
    by rewrite Hp.
  - cbn [print_chars]. rewrite quoted_app, parse_value_S.
    change (Ascii.eqb quote "n") with false. change (Ascii.eqb quote "t") with false.
    change (Ascii.eqb quote "f") with false. change (Ascii.eqb quote quote) with true.
    cbv iota. rewrite parse_str_escaped. cbn.
    unfold chars. by rewrite string_of_list_ascii_of_string.
  - rewrite print_arr in *. cbn [app length] in *. rewrite parse_value_S.
    change (Ascii.eqb "[" "n") with false. change (Ascii.eqb "[" "t") with false.
    change (Ascii.eqb "[" "f") with false. change (Ascii.eqb "[" quote) with false.
    change (Ascii.eqb "[" "[") with true. cbv iota.
    rewrite <- app_assoc. cbn [app].
    destruct (decide (l = [])) as [->|Hl]; [done|].
    destruct (elems_head l ("]"%char :: rest) Hl) as (c & r & Heq & Hc & Hclose).
    rewrite length_app in Hn, Hfuel. cbn [length] in Hn, Hfuel.
    rewrite Heq, skip_ws_head, Hclose, <- Heq by done.
    rewrite parse_elems_print; [done|done| |lia].
    apply Forall_forall. intros x Hx. apply IH.
    assert (length (print_chars x) <= length (join_comma (print_chars <$> l)))%nat.
    { apply length_join_elem. by apply list_elem_of_fmap_2. }
    lia.
  - rewrite print_obj in *. cbn [app length] in *. rewrite parse_value_S.
    change (Ascii.eqb "{" "n") with false. change (Ascii.eqb "{" "t") with false.
    change (Ascii.eqb "{" "f") with false. change (Ascii.eqb "{" quote) with false.
    change (Ascii.eqb "{" "[") with false. change (Ascii.eqb "{" "{") with true.
    cbv iota. rewrite <- app_assoc. cbn [app].
    rewrite length_app in Hn, Hfuel. cbn [length] in Hn, Hfuel.
    destruct (decide (map_to_list m = [])) as [Hm|Hm].
    { rewrite Hm. apply map_to_list_empty_iff in Hm as ->. done. }
    destruct (members_head (map_to_list m) ("}"%char :: rest) Hm) as (r & Heq).
    rewrite Heq, skip_ws_head by done.
    change (Ascii.eqb quote "}") with false. cbv iota. rewrite <- Heq.
    rewrite parse_members_print; [|done| |lia].
    + rewrite bool_decide_eq_true_2 by apply NoDup_fst_map_to_list.
      by rewrite list_to_map_to_list.
    + apply Forall_forall. intros [k x] Hx. cbn [snd]. apply IH.
      assert (length (print_member (k, x))
              <= length (join_comma (print_member <$> map_to_list m)))%nat.
      { apply length_join_elem. by apply (list_elem_of_fmap_2 print_member). }
      unfold print_member at 1 in H. unfold member in H. cbn [fst snd] in H.
      rewrite length_app in H. cbn [length] in H. lia.
Qed.

(** The text of a document reads back as the document. *)
Lemma parse_print (v : Value) : parse (print v) = Some v.
Proof.
  unfold parse, print, chars. rewrite list_ascii_of_string_of_list_ascii.
  pose proof (skip_ws_print v []) as Hskip. rewrite app_nil_r in Hskip.
  rewrite Hskip.
  pose proof (parse_print_value (S (length (print_chars v))) v) as Hv.
  unfold round_trips in Hv.
  specialize (Hv (Nat.lt_succ_diag_r _) (S (length (print_chars v))) []
                (Nat.lt_succ_diag_r _) eq_refl).
  rewrite app_nil_r in Hv. by rewrite Hv.
Qed.

End Text.

Section RoundTrip.

(** Draining returns the head as it stands and, behind it, the names as
    each removal has written them back. *)
Lemma drain_queue (n : nat) : ∀ s : defaultStash,
  (length (scheduledStack s) <= n)%nat → drain n s = drained (scheduledStack s).
Proof.
  induction n as [|n IH]; intros s Hn.
  - destruct (scheduledStack s); [done|cbn in Hn; lia].
  - cbn [drain]. destruct (scheduledStack s) as [|name rest] eqn:Hq.
    + by rewrite removeLastScheduledState_empty.
    + destruct (removeLastScheduledState_head s name rest Hq) as (s' & -> & _ & Hq' & _).
      rewrite IH by (rewrite Hq', length_fmap; cbn [length] in Hn; apply le_S_n, Hn).
      rewrite Hq'. cbn [drained]. f_equal.
      destruct rest as [|x rest]; [done|]. cbn [fmap list_fmap drained].
      by rewrite coerceUTF8_fmap_idemp.
Qed.

Lemma drained_valid (queue : list StateName) : allValid queue → drained queue = queue.
Proof.
  destruct queue as [|x rest]; [done|]. intros [_ Hr]%Forall_cons.
  cbn [drained]. f_equal. by apply coerceUTF8_all_valid.
Qed.

Lemma allValid_coerceUTF8 (names : list StateName) : allValid (coerceUTF8 <$> names).
Proof. apply Forall_fmap, Forall_forall. intros x _. apply validUTF8_coerceUTF8. Qed.

(** Every name that the stash itself has queued is UTF-8. *)
Lemma applyMutation_queue_valid (s : defaultStash) (m : mutation) :
  allValid (scheduledStack s) → allValid (scheduledStack (applyMutation s m)).
Proof.
  intros Hv.
  assert (Hframe : "scheduled_states" ≠ touches m →
                   scheduledStack (applyMutation s m) = scheduledStack s).
  { intros Hk. rewrite !scheduledStack_namespace. by rewrite applyMutation_frame. }
  destruct m as [a u n| |names|].
  - by rewrite Hframe.
  - by rewrite Hframe.
  - cbn [applyMutation]. destruct (blocked (doc s)) eqn:Hb.
    + by destruct (addScheduledStates_blocked names s Hb) as [e ->].
    + destruct (addScheduledStates_ok names s Hb) as (s' & -> & _ & Hq & _).
      cbn [snd]. rewrite Hq. apply allValid_coerceUTF8.
  - cbn [applyMutation]. destruct (scheduledStack s) as [|name rest] eqn:Hq.
    + rewrite removeLastScheduledState_empty by done. cbn [snd]. by rewrite Hq.
    + destruct (removeLastScheduledState_head s name rest Hq) as (s' & -> & _ & Hq' & _).
      cbn [snd]. rewrite Hq'. apply allValid_coerceUTF8.
Qed.

Lemma run_queue_valid (ms : list mutation) (s : defaultStash) :
  allValid (scheduledStack s) → allValid (scheduledStack (run ms s)).
Proof.
  intros Hv. induction ms as [|m ms IH] using rev_ind; [done|].
  rewrite run_snoc. by apply applyMutation_queue_valid.
Qed.

Lemma NewStashFromString_String (s : defaultStash) :
  NewStashFromString (embedded.String s) = (Some s, None).
Proof.
  destruct s as [[d]].
  unfold NewStashFromString, jsonmanager.NewJSONManagerFromString,
    embedded.String, jsonmanager.String.
  cbn [JSONManager jsonmanager.data]. by rewrite parse_print.
Qed.

(** C7.  Serialization round trip: after any run of history and queue
    mutations, the stash built by [NewStashFromString] from the string
    of the stash is that stash again, so [getLastStateFromHistory]
    returns the same result on it and draining its queue by
    [removeLastScheduledState] returns the same state names: the head of
    the queue and, behind it, the queued names as JSON holds them, which
    is the queue itself when its names are UTF-8, as they are on every
    stash built from the empty one. *)
Theorem serialization_round_trip (ms : list mutation) (s0 : defaultStash) :
  ∃ s', NewStashFromString (embedded.String (run ms s0)) = (Some s', None) ∧
        getLastStateFromHistory s' = getLastStateFromHistory (run ms s0) ∧
        drainQueue s' = drainQueue (run ms s0) ∧
        drainQueue s' = drained (scheduledStack (run ms s0)) ∧
        (allValid (scheduledStack s0) → drainQueue s' = scheduledStack (run ms s0)) ∧
        (s0 = NewStash → drainQueue s' = scheduledStack (run ms s0)).
Proof.
  exists (run ms s0). split; [apply NewStashFromString_String|].
  split; [done|]. split; [done|].
  assert (H : drainQueue (run ms s0) = drained (scheduledStack (run ms s0)))
    by by apply drain_queue.
  split; [done|].
  assert (Hv : allValid (scheduledStack s0) →
               drainQueue (run ms s0) = scheduledStack (run ms s0)).
  { intros Hv. rewrite H. by apply drained_valid, run_queue_valid. }
  split; [done|]. intros ->. apply Hv. by apply Forall_nil_2.
Qed.

End RoundTrip.

(** * Further properties of the operations *)


Section MoreProperties.

Lemma applied_AddState (s : defaultStash) (a : StateName) (u : option StateName)
    (n : option Z) :
  applyMutation s (AddState a u n) = (addStateToHistory a u n s).2.
Proof. reflexivity. Qed.

Lemma applied_RemoveLastState (s : defaultStash) :
  applyMutation s RemoveLastState = (removeLastStateFromHistory s).2.
Proof. reflexivity. Qed.

Lemma applied_AddScheduled (s : defaultStash) (names : slice StateName) :
  applyMutation s (AddScheduled names) = (addScheduledStates names s).2.
Proof. reflexivity. Qed.

Lemma applied_RemoveLastScheduled (s : defaultStash) :
  applyMutation s RemoveLastScheduled = (removeLastScheduledState s).2.
Proof. reflexivity. Qed.

Lemma history_key_is_not_queue_key : "state_history" ≠ "scheduled_states".
Proof. discriminate. Qed.

Lemma queue_key_is_not_history_key : "scheduled_states" ≠ "state_history".
Proof. discriminate. Qed.

(** X1.  The four operations keep what else the document holds: every
    member of the root object other than ["_"], and every member of the
    namespace other than [state_history] and [scheduled_states], is after
    a mutation what it was before. *)
Theorem mutations_keep_other_members (s : defaultStash) (mu : mutation)
    (m : gmap string Value) :
  doc s = VObj m →
  (∃ m', doc (applyMutation s mu) = VObj m' ∧
         ∀ k, k ≠ "_" → m' !! k = m !! k) ∧
  (∀ k, k ≠ "state_history" → k ≠ "scheduled_states" →
        namespaceOf (doc (applyMutation s mu)) !! k = namespaceOf (doc s) !! k).
Proof.
  intros Hm. split.
  - destruct (applyMutation_shape s mu) as [->|(h & ->)]; [by exists m|].
    rewrite doc_stashOf. unfold withMember. eexists. split; [done|]. intros k Hk.
    rewrite Hm. cbn [rootOf]. by rewrite lookup_insert_ne.
  - intros k H1 H2. apply applyMutation_frame. by destruct mu.
Qed.

Lemma mutations_keep_other_members_witness :
  ∃ m', doc (applyMutation (stashOf (VObj {[ "user" := VStr "u1" ]}))
               (AddState "A" None None)) = VObj m' ∧
        m' !! "user" = Some (VStr "u1").
Proof.
  destruct (mutations_keep_other_members (stashOf (VObj {[ "user" := VStr "u1" ]}))
              (AddState "A" None None) {[ "user" := VStr "u1" ]} eq_refl)
    as [(m' & Hdoc & Hkeep) _].
  exists m'. split; [exact Hdoc|]. rewrite Hkeep; [reflexivity|discriminate].
Defined.

(** X2.  The history operations do not touch the queue. *)
Theorem history_operations_keep_queue (s : defaultStash) (a : StateName)
    (u : option StateName) (n : option Z) :
  scheduledStack (addStateToHistory a u n s).2 = scheduledStack s ∧
  scheduledStack (removeLastStateFromHistory s).2 = scheduledStack s.
Proof.
  rewrite <- applied_AddState, <- applied_RemoveLastState, !scheduledStack_namespace.
  split; f_equal; f_equal; apply applyMutation_frame, queue_key_is_not_history_key.
Qed.

(** X3.  The queue operations do not touch the history: the history and
    the result of [getLastStateFromHistory] are the same after them. *)
Theorem queue_operations_keep_history (s : defaultStash) (names : slice StateName) :
  historyOf (addScheduledStates names s).2 = historyOf s ∧
  getLastStateFromHistory (addScheduledStates names s).2 = getLastStateFromHistory s ∧
  historyOf (removeLastScheduledState s).2 = historyOf s ∧
  getLastStateFromHistory (removeLastScheduledState s).2 = getLastStateFromHistory s.
Proof.
  rewrite <- applied_AddScheduled, <- applied_RemoveLastScheduled.
  pose proof (applyMutation_frame s (AddScheduled names) "state_history"
                history_key_is_not_queue_key) as H1.
  pose proof (applyMutation_frame s RemoveLastScheduled "state_history"
                history_key_is_not_queue_key) as H2.
  split; [|split; [|split]].
  - unfold historyOf. by rewrite !Get_history, H1.
  - by apply getLast_namespace.
  - unfold historyOf. by rewrite !Get_history, H2.
  - by apply getLast_namespace.
Qed.

(** X4.  Neither remove operation ever returns an error, whatever a
    document holds in which no object has a key twice. *)
Theorem remove_operations_never_fail (s : defaultStash) :
  (removeLastStateFromHistory s).1 = None ∧
  (removeLastScheduledState s).1.2 = None.
Proof.
  split.
  - unfold removeLastStateFromHistory. by rewrite Delete_history.
  - destruct (scheduledStack s) as [|name rest] eqn:Hq.
    + by rewrite removeLastScheduledState_empty.
    + by destruct (removeLastScheduledState_head s name rest Hq) as (s' & -> & _).
Qed.

(** X5.  [addScheduledStates] fails exactly when an array stands where
    the namespace has to be (the document itself, or the value under
    ["_"]); the stash is then unchanged. *)
Theorem addScheduledStates_fails_iff_blocked (s : defaultStash)
    (names : slice StateName) :
  ((addScheduledStates names s).1 = None ↔ blocked (doc s) = false) ∧
  ((addScheduledStates names s).1 ≠ None → (addScheduledStates names s).2 = s).
Proof.
  destruct (blocked (doc s)) eqn:Hb.
  - destruct (addScheduledStates_blocked names s Hb) as [e ->]. by split.
  - destruct (addScheduledStates_ok names s Hb) as (s' & -> & _). by split.
Qed.

Lemma addStateToHistory_no_error (s : defaultStash) (a : StateName)
    (u : option StateName) (n : option Z) :
  (addStateToHistory a u n s).1 = None ↔
  err (getLastStateFromHistory s) = None ∧
  (stateName (getLastStateFromHistory s) = Some a ∨ blocked (doc s) = false).
Proof.
  destruct (err (getLastStateFromHistory s)) as [e|] eqn:He.
  { rewrite (addStateToHistory_error a u n s e He). cbn. split; [done|by intros [? _]]. }
  destruct (decide (stateName (getLastStateFromHistory s) = Some a)) as [Ha|Ha].
  { rewrite addStateToHistory_same by done. cbn. split; auto. }
  rewrite addStateToHistory_write by done.
  destruct (blocked (doc s)) eqn:Hb.
  - destruct (Set_history_blocked (entryFor a u n) s Hb) as [e ->]. cbn.
    split; [done|]. by intros [_ [?|?]].
  - rewrite Set_history by done. cbn. split; auto.
Qed.

(** X6.  [addStateToHistory] returns no error exactly when the last entry
    can be read and either records the state already or the namespace can
    be written. *)
Theorem addStateToHistory_succeeds_iff (s : defaultStash) (a : StateName)
    (u : option StateName) (n : option Z) :
  (addStateToHistory a u n s).1 = None ↔
  err (getLastStateFromHistory s) = None ∧
  (stateName (getLastStateFromHistory s) = Some a ∨ blocked (doc s) = false).
Proof. apply addStateToHistory_no_error. Qed.

(** X7.  A scheduled count of zero or less is the same as none. *)
Theorem nonpositive_count_is_no_count (s : defaultStash) (a : StateName)
    (u : option StateName) (n : Z) :
  n <= 0 → addStateToHistory a u (Some n) s = addStateToHistory a u None s.
Proof.
  intros Hn. unfold addStateToHistory, historyItemFor.
  by destruct (Z.ltb_spec 0 n) as [?|_]; [lia|].
Qed.

Lemma nonpositive_count_is_no_count_witness :
  -3 <= 0 ∧
  addStateToHistory "A" None (Some (-3)) NewStash = addStateToHistory "A" None None NewStash.
Proof. split; [lia|]. apply nonpositive_count_is_no_count. lia. Defined.

(** Draining takes the scheduled states from the front, one per call. *)
Lemma drain_take (n : nat) : ∀ s : defaultStash,
  drain n s = take n (drained (scheduledStack s)).
Proof.
  induction n as [|n IH]; intros s; [done|].
  cbn [drain]. destruct (scheduledStack s) as [|name rest] eqn:Hq.
  - by rewrite removeLastScheduledState_empty.
  - destruct (removeLastScheduledState_head s name rest Hq) as (s' & -> & _ & Hq' & _).
    rewrite IH, Hq'. cbn [drained take]. f_equal. f_equal.
    apply drained_valid, Forall_fmap, Forall_forall. intros x _.
    apply validUTF8_coerceUTF8.
Qed.

(** X8.  Calling [removeLastScheduledState] [n] times returns the first
    [n] scheduled states in their order, the head as it stands in the
    document and the names behind it as JSON holds them; right after a
    batch has been scheduled, as many calls as the batch is long return
    the batch, each name as JSON holds it, which is the batch itself
    when its names are UTF-8. *)
Theorem drain_returns_batch_in_order (s : defaultStash) (names : slice StateName)
    (n : nat) :
  drain n s = take n (drained (scheduledStack s)) ∧
  (blocked (doc s) = false →
   drain (length (elems names)) (addScheduledStates names s).2
   = coerceUTF8 <$> elems names) ∧
  (blocked (doc s) = false → allValid (elems names) →
   drain (length (elems names)) (addScheduledStates names s).2 = elems names).
Proof.
  assert (H : blocked (doc s) = false →
              drain (length (elems names)) (addScheduledStates names s).2
              = coerceUTF8 <$> elems names).
  { intros Hb.
    destruct (addScheduledStates_ok names s Hb) as (s' & -> & _ & Hq & _).
    cbn [snd]. rewrite drain_take, Hq, drained_valid.
    - rewrite fmap_app. apply take_app_length'. by rewrite length_fmap.
    - apply Forall_fmap, Forall_forall. intros x _. apply validUTF8_coerceUTF8. }
  split; [apply drain_take|]. split; [done|]. intros Hb Hv.
  by rewrite H, coerceUTF8_all_valid.
Qed.

Lemma drain_returns_batch_in_order_witness :
  blocked (doc NewStash) = false ∧ allValid ["A"; "B"] ∧
  drain 2 (addScheduledStates (variadic ["A"; "B"]) NewStash).2 = ["A"; "B"].
Proof.
  split; [reflexivity|]. split; [by repeat constructor|].
  apply (proj2 (proj2 (drain_returns_batch_in_order NewStash (variadic ["A"; "B"]) 0)));
    [reflexivity|by repeat constructor].
Defined.

(** X9.  Undo: when [addStateToHistory] has appended an entry,
    [removeLastStateFromHistory] brings the history, and with it the
    result of [getLastStateFromHistory], back to what it was. *)
Theorem remove_undoes_add (s : defaultStash) (l : list Value) (a : StateName)
    (u : option StateName) (n : option Z) :
  historyOf s = Some l → Z.of_nat (length l) < int64_max →
  blocked (doc s) = false →
  err (getLastStateFromHistory s) = None →
  stateName (getLastStateFromHistory s) ≠ Some a →
  ∃ s1 s2, addStateToHistory a u n s = (None, s1) ∧
           historyOf s1 = Some (l ++ [entryFor a u n]) ∧
           removeLastStateFromHistory s1 = (None, s2) ∧
           historyOf s2 = Some l ∧
           getLastStateFromHistory s2 = getLastStateFromHistory s.
Proof.
  intros Hl Hfit Hb He Ha.
  destruct (addStateToHistory_effect a u n s)
    as [[e Hsame]|(_ & _ & _ & s1 & H1 & Hb1 & Hh1 & _)].
  { rewrite addStateToHistory_write, Set_history in Hsame by done.
    injection Hsame as _ Hsame. apply (f_equal historyOf) in Hsame.
    rewrite historyOf_appended, Hl in Hsame. cbn in Hsame.
    injection Hsame as Hsame. apply (f_equal length) in Hsame.
    rewrite length_app in Hsame. cbn in Hsame. lia. }
  rewrite Hl in Hh1. cbn in Hh1.
  destruct (removeLastStateFromHistory_effect s1) as (s2 & H2 & Hh2 & _).
  { rewrite Hh1. cbn. rewrite length_app. cbn. lia. }
  rewrite Hh1 in Hh2. cbn in Hh2.
  rewrite length_app in Hh2. cbn [length] in Hh2.
  replace (length l + 1 - 1)%nat with (length l) in Hh2 by lia.
  rewrite take_app_length in Hh2.
  exists s1, s2. do 4 (split; [done|]).
  by rewrite (getLast_history s2 l), (getLast_history s l) by (done || lia).
Qed.

Lemma remove_undoes_add_witness :
  ∃ s1 s2, addStateToHistory "A" None None NewStash = (None, s1) ∧
           historyOf s1 = Some ([] ++ [entryFor "A" None None]) ∧
           removeLastStateFromHistory s1 = (None, s2) ∧
           historyOf s2 = Some [] ∧
           getLastStateFromHistory s2 = getLastStateFromHistory NewStash.
Proof.
  apply (remove_undoes_add NewStash [] "A" None None);
    [reflexivity|vm_compute; reflexivity|reflexivity|reflexivity|discriminate].
Defined.

(** X10.  Repeating [addStateToHistory] with the same state, a name
    that is UTF-8, changes nothing the second time, whatever the first
    call did and whatever the metadata of the second. *)
Theorem repeated_add_changes_nothing (s : defaultStash) (l : list Value)
    (a : StateName) (u u' : option StateName) (n n' : option Z) :
  historyOf s = Some l → Z.of_nat (length l) < int64_max →
  validUTF8 a = true →
  (addStateToHistory a u' n' (addStateToHistory a u n s).2).2
  = (addStateToHistory a u n s).2.
Proof.
  intros Hl Hfit Hv.
  destruct (addStateToHistory_effect a u n s)
    as [[e He]|(_ & _ & _ & s1 & H1 & Hb1 & Hh1 & _)].
  - rewrite He. cbn [snd].
    destruct (err (getLastStateFromHistory s)) as [e0|] eqn:Herr.
    { by rewrite (addStateToHistory_error a u' n' s e0). }
    destruct (decide (stateName (getLastStateFromHistory s) = Some a)) as [Ha|Ha].
    { by rewrite addStateToHistory_same. }
    rewrite addStateToHistory_write by done.
    destruct (blocked (doc s)) eqn:Hb.
    + by destruct (Set_history_blocked (entryFor a u' n') s Hb) as [e1 ->].
    + rewrite addStateToHistory_write, Set_history in He by done.
      injection He as _ He. apply (f_equal historyOf) in He.
      rewrite historyOf_appended, Hl in He. cbn in He.
      injection He as He. apply (f_equal length) in He.
      rewrite length_app in He. cbn in He. lia.
  - rewrite H1. cbn [snd]. rewrite Hl in Hh1. cbn in Hh1.
    assert (Hlast : getLastStateFromHistory s1 = decodeEntry (Some (entryFor a u n))).
    { rewrite (getLast_history s1 (l ++ [entryFor a u n])), last_snoc;
        [done|done|rewrite length_app; cbn; lia]. }
    assert (He1 : err (decodeEntry (Some (entryFor a u n))) = None).
    { apply decodeEntry_wellFormed. unfold wellFormedEntry.
      by rewrite entryFor_lookup_s. }
    rewrite addStateToHistory_same; [done|by rewrite Hlast|].
    by rewrite Hlast, decodeEntry_state, entryState_entryFor, coerceUTF8_valid.
Qed.

Lemma repeated_add_changes_nothing_witness :
  (addStateToHistory "A" (Some "X") (Some 2) (addStateToHistory "A" None None NewStash).2).2
  = (addStateToHistory "A" None None NewStash).2.
Proof.
  apply (repeated_add_changes_nothing NewStash [] "A" None (Some "X") None (Some 2));
    [reflexivity|vm_compute; reflexivity|reflexivity].
Defined.

(** X11.  The length of the history: [addStateToHistory] adds one entry
    or none, and [removeLastStateFromHistory] takes exactly one away
    unless the history is empty. *)
Theorem history_length_changes (s : defaultStash) (a : StateName)
    (u : option StateName) (n : option Z) :
  Z.of_nat (historyLength s) <= int64_max →
  (historyLength s <= historyLength (addStateToHistory a u n s).2
                   <= S (historyLength s))%nat ∧
  historyLength (removeLastStateFromHistory s).2 = (historyLength s - 1)%nat.
Proof.
  unfold historyLength. intros Hfit. split.
  - destruct (addStateToHistory_effect a u n s)
      as [[e ->]|(_ & _ & _ & s1 & -> & _ & Hh1 & _)]; cbn [snd]; [lia|].
    rewrite Hh1. destruct (historyOf s) as [l|]; cbn; [|lia].
    rewrite length_app. cbn. lia.
  - destruct (removeLastStateFromHistory_effect s Hfit) as (s' & -> & Hh & _).
    cbn [snd]. rewrite Hh. destruct (historyOf s) as [l|]; cbn; [|done].
    rewrite length_take. lia.
Qed.

Lemma history_length_changes_witness :
  (historyLength NewStash <= historyLength (addStateToHistory "A" None None NewStash).2
                          <= S (historyLength NewStash))%nat ∧
  historyLength (removeLastStateFromHistory NewStash).2 = (historyLength NewStash - 1)%nat.
Proof.
  apply (history_length_changes NewStash "A" None None). vm_compute. discriminate.
Defined.

(** X12.  [getLastStateFromHistory] depends on the last entry only: two
    histories that end with the same entry give the same result. *)
Theorem last_state_depends_on_last_entry (s1 s2 : defaultStash) (l1 l2 : list Value) :
  historyOf s1 = Some l1 → historyOf s2 = Some l2 →
  Z.of_nat (length l1) <= int64_max → Z.of_nat (length l2) <= int64_max →
  last l1 = last l2 →
  getLastStateFromHistory s1 = getLastStateFromHistory s2.
Proof.
  intros H1 H2 Hf1 Hf2 Hlast.
  by rewrite (getLast_history s1 l1), (getLast_history s2 l2), Hlast.
Qed.

Lemma last_state_depends_on_last_entry_witness :
  getLastStateFromHistory
    (stashOf (VObj {[ "_" := VObj {[ "state_history" :=
       VArr [VObj {[ "s" := VStr "A" ]}; VObj {[ "s" := VStr "B" ]}] ]} ]}))
  = getLastStateFromHistory
      (stashOf (VObj {[ "_" := VObj {[ "state_history" :=
         VArr [VObj {[ "s" := VStr "B" ]}] ]} ]})).
Proof.
  apply (last_state_depends_on_last_entry _ _
           [VObj {[ "s" := VStr "A" ]}; VObj {[ "s" := VStr "B" ]}]
           [VObj {[ "s" := VStr "B" ]}]);
    [reflexivity|reflexivity|vm_compute; discriminate|vm_compute; discriminate|reflexivity].
Defined.

Lemma wellFormedEntry_entryFor (a : StateName) (u : option StateName) (n : option Z) :
  wellFormedEntry (entryFor a u n) = true.
Proof. unfold wellFormedEntry. by rewrite entryFor_lookup_s. Qed.

Lemma wellFormedStash_NewStash : wellFormedStash NewStash.
Proof. split; [done|]. by exists []. Qed.

Lemma wellFormedStash_step (s : defaultStash) (m : mutation) :
  Z.of_nat (historyLength s) <= int64_max →
  wellFormedStash s → wellFormedStash (applyMutation s m).
Proof.
  unfold historyLength. intros Hfit [Hb (l & Hl & Hwf)]. split.
  - destruct (applyMutation_shape s m) as [->|(h & ->)]; [done|].
    apply blocked_withMember.
  - destruct m as [a u n| |names|].
    + rewrite applied_AddState.
      destruct (addStateToHistory_effect a u n s)
        as [[e ->]|(_ & _ & _ & s1 & -> & _ & Hh1 & _)]; cbn [snd]; [by exists l|].
      rewrite Hl in Hh1. eexists. split; [done|].
      apply Forall_app. split; [done|]. apply Forall_singleton, wellFormedEntry_entryFor.
    + rewrite applied_RemoveLastState.
      destruct (removeLastStateFromHistory_effect s Hfit) as (s' & -> & Hh & _).
      cbn [snd]. rewrite Hl in Hh. eexists. split; [done|]. by apply Forall_take.
    + exists l. split; [|done]. unfold historyOf in *.
      rewrite Get_history in *.
      by rewrite (applyMutation_frame s (AddScheduled names) "state_history"
                    history_key_is_not_queue_key).
    + exists l. split; [|done]. unfold historyOf in *.
      rewrite Get_history in *.
      by rewrite (applyMutation_frame s RemoveLastScheduled "state_history"
                    history_key_is_not_queue_key).
Qed.

Lemma wellFormedStash_run (ms : list mutation) :
  Z.of_nat (length ms) <= int64_max →
  wellFormedStash (run ms NewStash) ∧
  (historyLength (run ms NewStash) <= length ms)%nat.
Proof.
  induction ms as [|m ms IH] using rev_ind; intros Hlen.
  - split; [apply wellFormedStash_NewStash|done].
  - rewrite length_app in Hlen. cbn [length] in Hlen.
    destruct IH as [Hwf Hhl]; [lia|]. rewrite run_snoc. split.
    + apply wellFormedStash_step; [lia|done].
    + destruct (run_history (ms ++ [m])) as [H _]; [rewrite length_app; cbn; lia|].
      by rewrite run_snoc in H.
Qed.

Lemma wellFormedStash_last_state (s : defaultStash) :
  Z.of_nat (historyLength s) <= int64_max →
  wellFormedStash s → err (getLastStateFromHistory s) = None.
Proof.
  unfold historyLength. intros Hfit [_ (l & Hl & Hwf)]. rewrite Hl in Hfit.
  rewrite (getLast_history s l) by done.
  destruct (last l) as [e|] eqn:He; [|done].
  apply decodeEntry_wellFormed.
  apply last_Some in He as (l' & ->). by apply Forall_app in Hwf as [_ [? _]%Forall_cons].
Qed.

(** X13.  On a stash built from the empty one by the four operations no
    operation fails: [getLastStateFromHistory], [addStateToHistory] and
    [addScheduledStates] return no error (and the remove operations never
    do). *)
Theorem operations_never_fail_on_built_stash (ms : list mutation) :
  Z.of_nat (length ms) <= int64_max →
  err (getLastStateFromHistory (run ms NewStash)) = None ∧
  (∀ a u n, (addStateToHistory a u n (run ms NewStash)).1 = None) ∧
  (∀ names, (addScheduledStates names (run ms NewStash)).1 = None) ∧
  (removeLastStateFromHistory (run ms NewStash)).1 = None ∧
  (removeLastScheduledState (run ms NewStash)).1.2 = None.
Proof.
  intros Hlen. destruct (wellFormedStash_run ms Hlen) as [Hwf Hhl].
  assert (Herr : err (getLastStateFromHistory (run ms NewStash)) = None).
  { apply wellFormedStash_last_state; [lia|done]. }
  destruct Hwf as [Hb _].
  split; [done|]. split; [|split; [|split]].
  - intros a u n. apply addStateToHistory_no_error. auto.
  - intros names.
    by destruct (addScheduledStates_ok names (run ms NewStash) Hb) as (s' & -> & _).
  - unfold removeLastStateFromHistory. by rewrite Delete_history.
  - destruct (scheduledStack (run ms NewStash)) as [|name rest] eqn:Hq.
    + by rewrite removeLastScheduledState_empty.
    + by destruct (removeLastScheduledState_head _ name rest Hq) as (s' & -> & _).
Qed.

Lemma operations_never_fail_on_built_stash_witness :
  (addStateToHistory "C" None None
     (run [AddState "A" None None; AddScheduled (variadic ["B"]); RemoveLastState]
        NewStash)).1 = None.
Proof.
  refine (proj1 (proj2 (operations_never_fail_on_built_stash
           [AddState "A" None None; AddScheduled (variadic ["B"]); RemoveLastState] _))
          "C" None None).
  vm_compute. discriminate.
Defined.

(** X14.  How an empty queue is stored: on an empty queue, scheduling
    no state writes [null] under [_.scheduled_states] when the slice of
    names is [nil] (a call without arguments), and the empty array when
    it is an empty slice that is not [nil]; taking the only scheduled
    state leaves the empty array; the queue reads as empty in all three
    cases. *)
Theorem empty_queue_representation (s : defaultStash) :
  blocked (doc s) = false →
  (scheduledStack s = [] →
   embedded.Get "_.scheduled_states" (addScheduledStates nil_slice s).2 = Some VNull ∧
   scheduledStack (addScheduledStates nil_slice s).2 = [] ∧
   embedded.Get "_.scheduled_states" (addScheduledStates (mk_slice []) s).2
   = Some (VArr []) ∧
   scheduledStack (addScheduledStates (mk_slice []) s).2 = []) ∧
  (∀ name, scheduledStack s = [name] →
   embedded.Get "_.scheduled_states" (removeLastScheduledState s).2 = Some (VArr []) ∧
   scheduledStack (removeLastScheduledState s).2 = []).
Proof.
  intros Hb. split.
  - intros Hq. unfold addScheduledStates. rewrite !Set_scheduled, Hq by done. cbn [snd].
    split; [|split; [|split]].
    + by rewrite Get_scheduled, doc_stashOf, namespaceOf_withMember, lookup_insert_eq.
    + by rewrite scheduledStack_written.
    + by rewrite Get_scheduled, doc_stashOf, namespaceOf_withMember, lookup_insert_eq.
    + by rewrite scheduledStack_written.
  - intros name Hq. unfold removeLastScheduledState.
    rewrite Hq, Set_scheduled by done. cbn [snd]. split.
    + by rewrite Get_scheduled, doc_stashOf, namespaceOf_withMember, lookup_insert_eq.
    + by rewrite scheduledStack_written.
Qed.

Lemma empty_queue_representation_witness :
  embedded.Get "_.scheduled_states" (addScheduledStates (variadic []) NewStash).2
  = Some VNull ∧
  embedded.Get "_.scheduled_states" (addScheduledStates (mk_slice []) NewStash).2
  = Some (VArr []).
Proof.
  destruct (proj1 (empty_queue_representation NewStash eq_refl) eq_refl)
    as (H1 & _ & H2 & _).
  split; [exact H1|exact H2].
Defined.

End MoreProperties.
